(** * Clash of Wizards: the battle engine ([useBattleEngine])

    A shallow embedding of the turn-resolution engine of the game
    (the React hook [useBattleEngine]) together with the data types of
    [types.ts], and the properties of its specification.

    Conventions of the embedding.
    - A TypeScript [number] is an integer of [Z]: every number of the
      game data is an integer and the engine only adds, subtracts and
      compares them and takes [Math.min] / [Math.max].
    - [useState<BattleState | null>] is [option BattleState.t]; an
      operation of the hook is a function from the state it closes over
      to the state it leaves behind ([setState] is the returned value, a
      bare [return] gives the state back as it was).
    - [Math.random()] is an explicit argument, a rational [r]. *)

From Stdlib Require Import ZArith QArith Qround List String Bool Lia.
From Stdlib Require Import DecimalString.
Import ListNotations.
Local Open Scope string_scope.
Local Open Scope list_scope.
Local Open Scope Z_scope.

(** ** Data model ([types.ts]) *)

(** [type: "attack" | "heal" | "shield" | "buff"] *)
Inductive AbilityType : Type := Attack | Heal | Shield | Buff.

(** An element of [statusEffects: any[]]; no rule of the engine looks
    inside one. *)
Inductive JsAny : Type :=
| JsUndefined
| JsNumber (n : Z)
| JsString (s : string).

Module Ability.
Record t : Type := mk {
  name : string;
  description : string;
  type : AbilityType;
  power : Z;
  cooldown : Z;
  currentCooldown : Z
}.

(** [{ ...a, currentCooldown: c }] *)
Definition with_currentCooldown (a : t) (c : Z) : t :=
  mk (name a) (description a) (type a) (power a) (cooldown a) c.
End Ability.

Module Character.
Record t : Type := mk {
  id : string;
  name : string;
  maxHP : Z;
  currentHP : Z;
  shield : Z;
  currentShield : option Z;
  image : string;
  quote : string;
  statusEffects : list JsAny;
  abilities : list Ability.t
}.

Definition with_currentHP (c : t) (h : Z) : t :=
  mk (id c) (name c) (maxHP c) h (shield c) (currentShield c)
     (image c) (quote c) (statusEffects c) (abilities c).

Definition with_shield (c : t) (s : Z) : t :=
  mk (id c) (name c) (maxHP c) (currentHP c) s (currentShield c)
     (image c) (quote c) (statusEffects c) (abilities c).

Definition with_abilities (c : t) (l : list Ability.t) : t :=
  mk (id c) (name c) (maxHP c) (currentHP c) (shield c) (currentShield c)
     (image c) (quote c) (statusEffects c) l.

(** [{ ...c, shield: 0, statusEffects: [] }] *)
Definition reset (c : t) : t :=
  mk (id c) (name c) (maxHP c) (currentHP c) 0 (currentShield c)
     (image c) (quote c) [] (abilities c).
End Character.

(** ["player" | "enemy"] *)
Inductive Side : Type := Player | Enemy.

(** ["damage" | "heal" | "shield"] *)
Inductive EffectType : Type := EDamage | EHeal | EShield.

Module Effect.
Record t : Type := mk {
  type : EffectType;
  target : Side;
  value : Z
}.
End Effect.

Module BattleState.
Record t : Type := mk {
  player : Character.t;
  enemy : Character.t;
  turn : Z;
  log : list string;
  lastAttacker : option Side;
  lastEffect : option Effect.t;
  gameOver : bool
}.
End BattleState.

(** The value returned by [applyAbility]. *)
Module Applied.
Record t : Type := mk {
  updatedSource : Character.t;
  updatedTarget : Character.t;
  effect : option Effect.t;
  logEntry : string
}.
End Applied.

(** ** JavaScript primitives used by the engine *)

(** Truthiness of a number: [0] is falsy. *)
Definition truthy (n : Z) : bool := negb (n =? 0).

(** [a || 0] on numbers. *)
Definition or_zero (n : Z) : Z := if truthy n then n else 0.

(** A number inside a template literal: its decimal writing. *)
Definition show_number (n : Z) : string := NilZero.string_of_int (Z.to_int n).

(** [isPlayer ? "enemy" : "player"] and [isPlayer ? "player" : "enemy"] *)
Definition target_side (isPlayer : bool) : Side :=
  if isPlayer then Enemy else Player.
Definition source_side (isPlayer : bool) : Side :=
  if isPlayer then Player else Enemy.

(** ** The engine *)

(** The [useEffect] that (re)initialises the state for a pair of
    combatants. *)
Definition initBattle (player enemy : Character.t) : option BattleState.t :=
  Some (BattleState.mk (Character.reset player) (Character.reset enemy)
          0 ["Souboj začal!"] None None false).

(** [endTurn(nextState)]: the state it sets. *)
Definition endTurn (nextState : BattleState.t) : option BattleState.t :=
  let gameOver :=
    (Character.currentHP (BattleState.player nextState) <=? 0)
    || (Character.currentHP (BattleState.enemy nextState) <=? 0) in
  Some (BattleState.mk
          (BattleState.player nextState) (BattleState.enemy nextState)
          (BattleState.turn nextState + 1)
          (BattleState.log nextState)
          (BattleState.lastAttacker nextState)
          (BattleState.lastEffect nextState)
          gameOver).

(** The callback of [sourceCopy.abilities.map] in [applyAbility]. *)
Definition updateCooldown (ability a : Ability.t) : Ability.t :=
  if (Ability.name a =? Ability.name ability)%string
  then Ability.with_currentCooldown a (Ability.cooldown a)
  else if Ability.currentCooldown a >? 0
  then Ability.with_currentCooldown a (Ability.currentCooldown a - 1)
  else a.

(** The type-specific part of [applyAbility]: the two copies after the
    effect, the effect record and the log text. *)
Definition applyEffect (source target : Character.t) (ability : Ability.t)
    (isPlayer : bool)
  : Character.t * Character.t * option Effect.t * string :=
  let logText :=
    (Character.name source ++ " použil " ++ Ability.name ability)%string in
  match Ability.type ability with
  | Attack =>
      let damage := Ability.power ability in
      let '(targetCopy, damage) :=
        if truthy (Character.shield target) && (Character.shield target >? 0)
        then
          let absorb := Z.min damage (Character.shield target) in
          (Character.with_shield target (Character.shield target - absorb),
           damage - absorb)
        else (target, damage) in
      let targetCopy :=
        Character.with_currentHP targetCopy
          (Z.max (Character.currentHP targetCopy - damage) 0) in
      (source, targetCopy,
       Some (Effect.mk EDamage (target_side isPlayer) damage),
       (logText ++ " a způsobil " ++ show_number damage ++ " poškození.")%string)
  | Heal =>
      let healed :=
        Z.min (Ability.power ability)
              (Character.maxHP source - Character.currentHP source) in
      let sourceCopy :=
        Character.with_currentHP source (Character.currentHP source + healed) in
      (sourceCopy, target,
       Some (Effect.mk EHeal (source_side isPlayer) healed),
       (logText ++ " a vyléčil se o " ++ show_number healed ++ " HP.")%string)
  | Shield =>
      let sourceCopy :=
        Character.with_shield source
          (or_zero (Character.shield source) + Ability.power ability) in
      (sourceCopy, target,
       Some (Effect.mk EShield (source_side isPlayer) (Ability.power ability)),
       (logText ++ " a získal štít o síle "
                ++ show_number (Ability.power ability) ++ ".")%string)
  | Buff => (source, target, None, logText)
  end.

Definition applyAbility (source target : Character.t) (ability : Ability.t)
    (isPlayer : bool) : Applied.t :=
  let '(sourceCopy, targetCopy, effect, logText) :=
    applyEffect source target ability isPlayer in
  let updatedAbilities :=
    map (updateCooldown ability) (Character.abilities sourceCopy) in
  Applied.mk (Character.with_abilities sourceCopy updatedAbilities)
             targetCopy effect logText.

(** The guard of [useAbility], without the [!state] test:
    [state.turn % 2 !== 0 || ability.currentCooldown > 0 || state.gameOver].
    [%] of JavaScript takes the sign of the dividend: [Z.rem]. *)
Definition useAbility_rejects (st : BattleState.t) (ability : Ability.t) : bool :=
  negb (Z.rem (BattleState.turn st) 2 =? 0)
  || (Ability.currentCooldown ability >? 0)
  || BattleState.gameOver st.

(** The [nextState] that [useAbility] hands to [endTurn]. *)
Definition useAbility_nextState (st : BattleState.t) (ability : Ability.t)
  : BattleState.t :=
  let r := applyAbility (BattleState.player st) (BattleState.enemy st)
                        ability true in
  BattleState.mk (Applied.updatedSource r) (Applied.updatedTarget r)
    (BattleState.turn st)
    (BattleState.log st ++ [Applied.logEntry r])
    (Some Player) (Applied.effect r)
    (Character.currentHP (Applied.updatedTarget r) <=? 0).

Definition useAbility (state : option BattleState.t) (ability : Ability.t)
  : option BattleState.t :=
  match state with
  | None => state
  | Some st =>
      if useAbility_rejects st ability then state
      else endTurn (useAbility_nextState st ability)
  end.

(** [Math.floor(r * n)] *)
Definition randomIndex (r : Q) (n : nat) : Z :=
  Qfloor (r * inject_Z (Z.of_nat n)).

(** [arr[i]]: [undefined] outside the array. *)
Definition index {A : Type} (arr : list A) (i : Z) : option A :=
  if i <? 0 then None else nth_error arr (Z.to_nat i).

(** [a.currentCooldown === 0] *)
Definition offCooldown (a : Ability.t) : bool := Ability.currentCooldown a =? 0.

(** The turn test of [enemyTurn]:
    [state.turn % 2 !== 1 || state.gameOver]. *)
Definition enemyTurn_rejects (st : BattleState.t) : bool :=
  negb (Z.rem (BattleState.turn st) 2 =? 1) || BattleState.gameOver st.

(** [enemy.abilities.filter((a) => a.currentCooldown === 0)] *)
Definition available (st : BattleState.t) : list Ability.t :=
  filter offCooldown (Character.abilities (BattleState.enemy st)).

(** The [nextState] that [enemyTurn] hands to [endTurn]. *)
Definition enemyTurn_nextState (st : BattleState.t) (ability : Ability.t)
  : BattleState.t :=
  let a := applyAbility (BattleState.enemy st) (BattleState.player st)
                        ability false in
  BattleState.mk (Applied.updatedTarget a) (Applied.updatedSource a)
    (BattleState.turn st)
    (BattleState.log st ++ [Applied.logEntry a])
    (Some Enemy) (Applied.effect a)
    (Character.currentHP (Applied.updatedTarget a) <=? 0).

(** [enemyTurn()], with [r] the value [Math.random()] returns.  An index
    outside [available] cannot be drawn for [0 <= r < 1]
    ([randomIndex_range]); there the call would stop on [undefined]
    before any [setState], and the state stays as it was. *)
Definition enemyTurn (r : Q) (state : option BattleState.t)
  : option BattleState.t :=
  match state with
  | None => state
  | Some st =>
      if enemyTurn_rejects st then state
      else if (List.length (available st) =? 0)%nat then state
      else
        match index (available st)
                    (randomIndex r (List.length (available st))) with
        | None => state
        | Some ability => endTurn (enemyTurn_nextState st ability)
        end
  end.

(** ** Sample data

    The first character of [data/characters.ts] with his six abilities,
    and the combatants and states used as concrete inputs below. *)

Definition flameLash : Ability.t :=
  Ability.mk "Flame Lash" "Způsobí 20 poškození." Attack 20 0 0.
Definition aegisWard : Ability.t :=
  Ability.mk "Aegis Ward" "Vytvoří štít o síle 35." Shield 35 2 0.
Definition vitalSurge : Ability.t :=
  Ability.mk "Vital Surge" "Vyléčí 25 HP." Heal 25 3 0.
Definition emberVortex : Ability.t :=
  Ability.mk "Ember Vortex" "Způsobí 35 poškození." Attack 35 4 0.
Definition moltenShell : Ability.t :=
  Ability.mk "Molten Shell" "Vytvoří štít o síle 35." Shield 35 4 0.
Definition infernalBlast : Ability.t :=
  Ability.mk "Infernal Blast" "Způsobí 45 poškození." Attack 45 5 0.

Definition valdrin : Character.t :=
  Character.mk "valdrin" "Valdrin Embercloak" 100 100 0 None
    "/characters/player-3.png" "Má moc nevychází z krve, ale z vůle." []
    [flameLash; aegisWard; vitalSurge; emberVortex; moltenShell; infernalBlast].

(** Valdrin after some blows, behind a shield of 15. *)
Definition woundedValdrin : Character.t :=
  Character.with_shield (Character.with_currentHP valdrin 90) 15.

Definition twinBolt : Ability.t :=
  Ability.mk "Twin Bolt" "" Attack 10 2 0.
Definition twinBoltGreater : Ability.t :=
  Ability.mk "Twin Bolt" "" Attack 30 5 1.

(** A caster whose two spells share a name. *)
Definition twinCaster : Character.t :=
  Character.mk "twin" "Twin Caster" 80 80 0 None "" "" []
    [twinBolt; twinBoltGreater].

(** Valdrin brought to the battle with no hit points left. *)
Definition fallenValdrin : Character.t := Character.with_currentHP valdrin 0.

(** A spell that belongs to nobody's list. *)
Definition strayCurse : Ability.t :=
  Ability.mk "Stray Curse" "" Attack 1000 9 0.

(** A state in the middle of a battle: the enemy is to move, and the
    three spells it has are all counting down. *)
Definition lockedEnemy : Character.t :=
  Character.with_abilities valdrin
    [Ability.with_currentCooldown flameLash 1;
     Ability.with_currentCooldown aegisWard 2;
     Ability.with_currentCooldown vitalSurge 3].
Definition stalledState : BattleState.t :=
  BattleState.mk valdrin lockedEnemy 5 ["Souboj začal!"] (Some Player) None false.

(** A state after the last blow: the enemy is at 0 and the game over. *)
Definition finishedState : BattleState.t :=
  BattleState.mk valdrin fallenValdrin 3 ["Souboj začal!"] (Some Player) None true.

(** The state [initBattle valdrin valdrin] sets. *)
Definition openingState : BattleState.t :=
  BattleState.mk (Character.reset valdrin) (Character.reset valdrin) 0
    ["Souboj začal!"] None None false.

(** Turn 1: the player has moved, the enemy is to answer. *)
Definition enemyToMove : BattleState.t :=
  BattleState.mk valdrin valdrin 1 ["Souboj začal!"] (Some Player) None false.

(** The player's move at turn 2, Aegis Ward cast at turn 0 and counting
    down from 2 under a shield of 35. *)
Definition staleState : BattleState.t :=
  BattleState.mk
    (Character.with_shield
       (Character.with_abilities valdrin
          [flameLash; Ability.with_currentCooldown aegisWard 2; vitalSurge;
           emberVortex; moltenShell; infernalBlast])
       35)
    valdrin 2 ["Souboj začal!"] (Some Enemy) None false.

(** ** The cooldown law of the specification *)

(** The cooldown law of the specification, read per position of the
    source's list: the ability at position [i] was used and is at its
    full cooldown afterwards, any other one has counted down by one if
    it was counting, and is still at 0 if it was at 0. *)
Definition cooldown_law (before after : list Ability.t) (i : nat) : Prop :=
  forall (j : nat) (b : Ability.t),
    nth_error before j = Some b ->
    exists b' : Ability.t,
      nth_error after j = Some b'
      /\ if (j =? i)%nat
         then Ability.currentCooldown b' = Ability.cooldown b
         else (Ability.currentCooldown b > 0 ->
               Ability.currentCooldown b' = Ability.currentCooldown b - 1)
              /\ (Ability.currentCooldown b = 0 ->
                  Ability.currentCooldown b' = 0).

(** ** The battle screen ([components/Battle.tsx]) *)

(** [memoPlayer]: the chosen character as the screen hands it to the
    engine, at full hit points, without shield or status effects, every
    ability off cooldown. *)
Definition memoPlayer (player : Character.t) : Character.t :=
  Character.mk (Character.id player) (Character.name player)
    (Character.maxHP player) (Character.maxHP player) 0
    (Character.currentShield player) (Character.image player)
    (Character.quote player) []
    (map (fun a => Ability.with_currentCooldown a 0) (Character.abilities player)).

(** The [enemy] memo of the screen, from the template of the chosen
    difficulty. *)
Definition memoEnemy (enemyTemplate : Character.t) : Character.t :=
  Character.mk (Character.id enemyTemplate) (Character.name enemyTemplate)
    (Character.maxHP enemyTemplate) (Character.maxHP enemyTemplate) 0
    (Character.currentShield enemyTemplate) (Character.image enemyTemplate)
    (Character.quote enemyTemplate) []
    (map (fun ability => Ability.with_currentCooldown ability 0)
         (Character.abilities enemyTemplate)).

(** The [disabled] flag of an ability button:
    [ability.currentCooldown > 0 || state.turn % 2 !== 0 || state.gameOver]. *)
Definition disabled (st : BattleState.t) (ability : Ability.t) : bool :=
  (Ability.currentCooldown ability >? 0)
  || negb (Z.rem (BattleState.turn st) 2 =? 0)
  || BattleState.gameOver st.

(** The text of the game-over banner, when it is shown:
    [state.gameOver && (state.player.currentHP > 0 ? ... : ...)]. *)
Definition banner (st : BattleState.t) : option string :=
  if BattleState.gameOver st
  then Some (if Character.currentHP (BattleState.player st) >? 0
             then "Vyhrál jsi!" else "Prohrál jsi!")
  else None.

(** ** The enemy's timer *)

(** The last effect of [useBattleEngine] arms the timer that calls
    [enemyTurn] exactly when the state is there, the game is not over
    and [state.turn % 2 === 1]. *)
Definition armsEnemyTimer (state : option BattleState.t) : bool :=
  match state with
  | None => false
  | Some st =>
      if BattleState.gameOver st then false
      else Z.rem (BattleState.turn st) 2 =? 1
  end.

(** ** Sequences of calls *)

(** What can happen to the engine: a click on an ability button, or the
    timer calling [enemyTurn], with the value [Math.random()] gives
    then. *)
Inductive Action : Type :=
| PlayerUses (ability : Ability.t)
| EnemyMoves (r : Q).

Definition step (state : option BattleState.t) (act : Action)
  : option BattleState.t :=
  match act with
  | PlayerUses ability => useAbility state ability
  | EnemyMoves r => enemyTurn r state
  end.

Definition run (state : option BattleState.t) (acts : list Action)
  : option BattleState.t :=
  fold_left step acts state.

(** A combatant casting [casts] one after the other, each ability
    against the target it comes with. *)
Definition castAll (isPlayer : bool) (source : Character.t)
    (casts : list (Ability.t * Character.t)) : Character.t :=
  fold_left
    (fun s c => Applied.updatedSource (applyAbility s (snd c) (fst c) isPlayer))
    casts source.

(** ** The ranges of the data model *)

(** Power is not negative and the countdown is between 0 and the
    cooldown. *)
Definition abilityInRange (a : Ability.t) : Prop :=
  0 <= Ability.power a
  /\ 0 <= Ability.currentCooldown a <= Ability.cooldown a.

(** Hit points between 0 and [maxHP], a shield that is not negative,
    abilities in range. *)
Definition wellFormed (c : Character.t) : Prop :=
  0 <= Character.currentHP c <= Character.maxHP c
  /\ 0 <= Character.shield c
  /\ Forall abilityInRange (Character.abilities c).

(** A battle in order: both combatants well formed, not both down, the
    turn not negative, and [gameOver] telling whether one is down. *)
Definition battleInOrder (st : BattleState.t) : Prop :=
  wellFormed (BattleState.player st)
  /\ wellFormed (BattleState.enemy st)
  /\ (0 < Character.currentHP (BattleState.player st)
      \/ 0 < Character.currentHP (BattleState.enemy st))
  /\ BattleState.gameOver st
     = (Character.currentHP (BattleState.player st) <=? 0)
       || (Character.currentHP (BattleState.enemy st) <=? 0)
  /\ 0 <= BattleState.turn st.

(** The moves of a sequence that come from the player use abilities of
    a power that is not negative. *)
Definition powerInRange (act : Action) : Prop :=
  match act with
  | PlayerUses ability => 0 <= Ability.power ability
  | EnemyMoves _ => True
  end.

(** An ability that is always ready: no cooldown, and not counting. *)
Definition alwaysReady (a : Ability.t) : Prop :=
  Ability.cooldown a = 0 /\ Ability.currentCooldown a = 0.

(** ** Reading the result of [applyAbility] *)

Section ApplyAbility.
Variables (source target : Character.t) (ability : Ability.t)
          (isPlayer : bool).

Let r := applyAbility source target ability isPlayer.

(** Every branch leaves the source's ability list to the cooldown
    pass. *)
Lemma applyEffect_abilities :
  Character.abilities (fst (fst (fst (applyEffect source target ability isPlayer))))
  = Character.abilities source.
Proof.
  unfold applyEffect.
  destruct (Ability.type ability); try reflexivity.
  destruct (truthy _ && _); reflexivity.
Qed.

Lemma applyAbility_abilities :
  Character.abilities (Applied.updatedSource r)
  = map (updateCooldown ability) (Character.abilities source).
Proof.
  subst r. unfold applyAbility.
  pose proof applyEffect_abilities as E.
  destruct (applyEffect source target ability isPlayer) as [[[sc tc] e] l].
  simpl in *. now rewrite E.
Qed.

(** What an action leaves alone: the source's hit points and shield
    unless it heals or shields, the target unless it is attacked. *)
Lemma applyAbility_source_currentHP :
  Ability.type ability <> Heal ->
  Character.currentHP (Applied.updatedSource r) = Character.currentHP source.
Proof.
  subst r. unfold applyAbility, applyEffect. intros H.
  destruct (Ability.type ability); try reflexivity; try contradiction.
  destruct (truthy _ && _); reflexivity.
Qed.

Lemma applyAbility_source_shield :
  Ability.type ability <> Shield ->
  Character.shield (Applied.updatedSource r) = Character.shield source.
Proof.
  subst r. unfold applyAbility, applyEffect. intros H.
  destruct (Ability.type ability); try reflexivity; try contradiction.
  destruct (truthy _ && _); reflexivity.
Qed.

Lemma applyAbility_target :
  Ability.type ability <> Attack ->
  Applied.updatedTarget r = target.
Proof.
  subst r. unfold applyAbility, applyEffect. intros H.
  destruct (Ability.type ability); try reflexivity; contradiction.
Qed.

(** The shield test of the attack branch is [shield > 0]. *)
Lemma shield_test (s : Z) : truthy s && (s >? 0) = (0 <? s).
Proof.
  unfold truthy.
  rewrite Z.gtb_ltb.
  destruct (Z.eqb_spec s 0), (Z.ltb_spec 0 s); simpl; lia.
Qed.

(** The attack branch, component by component. *)
Lemma applyAbility_attack :
  Ability.type ability = Attack ->
  let absorb :=
    if 0 <? Character.shield target
    then Z.min (Ability.power ability) (Character.shield target) else 0 in
  let damage := Ability.power ability - absorb in
  Applied.effect r = Some (Effect.mk EDamage (target_side isPlayer) damage)
  /\ Character.shield (Applied.updatedTarget r)
     = Character.shield target - absorb
  /\ Character.currentHP (Applied.updatedTarget r)
     = Z.max (Character.currentHP target - damage) 0.
Proof.
  subst r. unfold applyAbility, applyEffect. intros ->.
  rewrite shield_test.
  destruct (0 <? Character.shield target); simpl;
    rewrite ?Z.sub_0_r; auto.
Qed.

(** The heal branch. *)
Lemma applyAbility_heal :
  Ability.type ability = Heal ->
  let healed :=
    Z.min (Ability.power ability)
          (Character.maxHP source - Character.currentHP source) in
  Applied.effect r = Some (Effect.mk EHeal (source_side isPlayer) healed)
  /\ Character.currentHP (Applied.updatedSource r)
     = Character.currentHP source + healed
  /\ Character.maxHP (Applied.updatedSource r) = Character.maxHP source.
Proof.
  subst r. unfold applyAbility, applyEffect. intros ->. simpl. auto.
Qed.
End ApplyAbility.

(** ** Attack *)

(** C1.  An attack of power [p >= 0] against a target with shield
    [s >= 0] and hit points [h] (the ranges of the data model) applies
    [max(0, p - min(p, s))] damage to the hit points, which is the value
    of the effect record; it leaves the target a shield of
    [max(0, s - p)] and [max(0, h - damage)] hit points, and it leaves the
    hit points and the shield of the source as they were. *)
Theorem attack_damage_and_shield
    (source target : Character.t) (ability : Ability.t) (isPlayer : bool) :
  Ability.type ability = Attack ->
  0 <= Ability.power ability ->
  0 <= Character.shield target ->
  exists damage_applied : Z,
    damage_applied
    = Z.max 0 (Ability.power ability
               - Z.min (Ability.power ability) (Character.shield target))
    /\ Applied.effect (applyAbility source target ability isPlayer)
       = Some (Effect.mk EDamage (target_side isPlayer) damage_applied)
    /\ Character.shield
         (Applied.updatedTarget (applyAbility source target ability isPlayer))
       = Z.max 0 (Character.shield target - Ability.power ability)
    /\ Character.currentHP
         (Applied.updatedTarget (applyAbility source target ability isPlayer))
       = Z.max 0 (Character.currentHP target - damage_applied)
    /\ Character.currentHP
         (Applied.updatedSource (applyAbility source target ability isPlayer))
       = Character.currentHP source
    /\ Character.shield
         (Applied.updatedSource (applyAbility source target ability isPlayer))
       = Character.shield source.
Proof.
  intros Ht Hp Hs.
  destruct (applyAbility_attack source target ability isPlayer Ht)
    as (He & Hsh & Hhp).
  eexists; split; [reflexivity|].
  rewrite He, Hsh, Hhp.
  rewrite applyAbility_source_currentHP, applyAbility_source_shield
    by congruence.
  set (p := Ability.power ability) in *.
  set (s := Character.shield target) in *.
  assert (D : p - (if 0 <? s then Z.min p s else 0)
              = Z.max 0 (p - Z.min p s))
    by (destruct (Z.ltb_spec 0 s); lia).
  rewrite D.
  repeat split; destruct (Z.ltb_spec 0 s); lia.
Qed.

(** Scenario B of the specification: a shield of 15 takes a blow of 20,
    5 reach the hit points. *)
Lemma attack_damage_and_shield_witness :
  exists damage_applied : Z,
    damage_applied = Z.max 0 (20 - Z.min 20 15)
    /\ Applied.effect (applyAbility valdrin woundedValdrin flameLash true)
       = Some (Effect.mk EDamage Enemy damage_applied)
    /\ Character.shield
         (Applied.updatedTarget (applyAbility valdrin woundedValdrin flameLash true))
       = Z.max 0 (15 - 20)
    /\ Character.currentHP
         (Applied.updatedTarget (applyAbility valdrin woundedValdrin flameLash true))
       = Z.max 0 (90 - damage_applied)
    /\ Character.currentHP
         (Applied.updatedSource (applyAbility valdrin woundedValdrin flameLash true))
       = 100
    /\ Character.shield
         (Applied.updatedSource (applyAbility valdrin woundedValdrin flameLash true))
       = 0.
Proof.
  apply (attack_damage_and_shield valdrin woundedValdrin flameLash true).
  - reflexivity.
  - simpl. lia.
  - simpl. lia.
Defined.

(** ** Heal *)

(** C5.  A heal restores [healed = min(power, maxHP - currentHP)] hit
    points: the source ends at [currentHP + healed], which is at most
    [maxHP] (whatever the hit points were before, so also when they
    were at most [maxHP]); the effect record is [{heal, source side,
    healed}] and the target is returned as it was given. *)
Theorem heal_is_capped
    (source target : Character.t) (ability : Ability.t) (isPlayer : bool) :
  Ability.type ability = Heal ->
  exists healed : Z,
    healed = Z.min (Ability.power ability)
                   (Character.maxHP source - Character.currentHP source)
    /\ Character.currentHP
         (Applied.updatedSource (applyAbility source target ability isPlayer))
       = Character.currentHP source + healed
    /\ (Character.currentHP source <= Character.maxHP source ->
        Character.currentHP
          (Applied.updatedSource (applyAbility source target ability isPlayer))
        <= Character.maxHP source)
    /\ Character.maxHP
         (Applied.updatedSource (applyAbility source target ability isPlayer))
       = Character.maxHP source
    /\ Applied.effect (applyAbility source target ability isPlayer)
       = Some (Effect.mk EHeal (source_side isPlayer) healed)
    /\ Applied.updatedTarget (applyAbility source target ability isPlayer)
       = target.
Proof.
  intros Ht.
  destruct (applyAbility_heal source target ability isPlayer Ht)
    as (He & Hhp & Hmax).
  eexists; split; [reflexivity|].
  rewrite He, Hhp, Hmax, applyAbility_target by congruence.
  repeat split. lia.
Qed.

(** Scenario C of the specification: 90 of 100 hit points and a heal of
    25 give 100, not 115. *)
Lemma heal_is_capped_witness :
  Character.currentHP
    (Applied.updatedSource (applyAbility woundedValdrin valdrin vitalSurge true))
  = 100.
Proof.
  destruct (heal_is_capped woundedValdrin valdrin vitalSurge true eq_refl)
    as (healed & Hh & Hhp & _).
  rewrite Hhp, Hh. reflexivity.
Defined.

(** ** Cooldowns *)

Section Cooldowns.
Variables (ability : Ability.t).

Lemma updateCooldown_same_name (a : Ability.t) :
  Ability.name a = Ability.name ability ->
  updateCooldown ability a
  = Ability.with_currentCooldown a (Ability.cooldown a).
Proof.
  intros E. unfold updateCooldown. now rewrite E, String.eqb_refl.
Qed.

Lemma updateCooldown_counting (a : Ability.t) :
  Ability.name a <> Ability.name ability ->
  0 < Ability.currentCooldown a ->
  updateCooldown ability a
  = Ability.with_currentCooldown a (Ability.currentCooldown a - 1).
Proof.
  intros N P. unfold updateCooldown.
  apply String.eqb_neq in N. rewrite N.
  apply Z.gtb_lt in P. now rewrite P.
Qed.

Lemma updateCooldown_idle (a : Ability.t) :
  Ability.name a <> Ability.name ability ->
  Ability.currentCooldown a <= 0 ->
  updateCooldown ability a = a.
Proof.
  intros N P. unfold updateCooldown.
  apply String.eqb_neq in N. rewrite N.
  destruct (Ability.currentCooldown a >? 0) eqn:G; [|reflexivity].
  apply Z.gtb_lt in G. lia.
Qed.

(** Only the countdown of an ability is ever touched. *)
Lemma updateCooldown_fields (a : Ability.t) :
  updateCooldown ability a
  = Ability.with_currentCooldown a
      (Ability.currentCooldown (updateCooldown ability a)).
Proof.
  unfold updateCooldown.
  destruct (_ =? _)%string; [reflexivity|].
  destruct (_ >? _); [reflexivity|]. now destruct a.
Qed.

(** Position by position, the source's list after the action. *)
Lemma applyAbility_nth_ability
    (source target : Character.t) (isPlayer : bool) (j : nat) :
  nth_error
    (Character.abilities
       (Applied.updatedSource (applyAbility source target ability isPlayer))) j
  = option_map (updateCooldown ability)
      (nth_error (Character.abilities source) j).
Proof. rewrite applyAbility_abilities. apply nth_error_map. Qed.

(** In a list without a repeated name, the name tells the position. *)
Lemma name_determines_position (l : list Ability.t) (i j : nat) (a b : Ability.t) :
  NoDup (map Ability.name l) ->
  nth_error l i = Some a -> nth_error l j = Some b ->
  Ability.name b = Ability.name a -> j = i.
Proof.
  intros ND Hi Hj E.
  apply (proj1 (NoDup_nth_error (map Ability.name l)) ND).
  - rewrite length_map. apply nth_error_Some. congruence.
  - rewrite !nth_error_map, Hi, Hj. simpl. now rewrite E.
Qed.
End Cooldowns.

(** The law as the specification words it does not hold for every
    source: used with its first spell, [twinCaster] sees the second one,
    another ability that was counting down from 1, go up to its full
    cooldown 5 instead of down to 0. *)
Lemma cooldown_law_fails_for_twinCaster :
  nth_error (Character.abilities twinCaster) 0 = Some twinBolt
  /\ nth_error (Character.abilities twinCaster) 1 = Some twinBoltGreater
  /\ twinBoltGreater <> twinBolt
  /\ Ability.currentCooldown twinBoltGreater = 1
  /\ option_map Ability.currentCooldown
       (nth_error
          (Character.abilities
             (Applied.updatedSource (applyAbility twinCaster valdrin twinBolt true)))
          1)
     = Some 5
  /\ ~ cooldown_law
         (Character.abilities twinCaster)
         (Character.abilities
            (Applied.updatedSource (applyAbility twinCaster valdrin twinBolt true)))
         0.
Proof.
  repeat split; try reflexivity; try discriminate.
  intros L.
  destruct (L 1%nat twinBoltGreater eq_refl) as (b' & Hb & Hdec & _).
  vm_compute in Hb. injection Hb as <-.
  assert (H : Ability.currentCooldown twinBoltGreater > 0) by (simpl; lia).
  specialize (Hdec H). discriminate Hdec.
Qed.

(** C2, amended.  After [applyAbility] with ability [A], of whatever
    type, the source's list has the same abilities at the same places,
    changed in their countdown only: an ability named as [A] is at its
    full cooldown (so is [A] itself when it is in the list), an ability
    with another name that was counting down has lost exactly 1, and one
    with another name that was at 0 is still at 0. *)
Theorem cooldown_update_by_name
    (source target : Character.t) (A : Ability.t) (isPlayer : bool)
    (j : nat) (b : Ability.t) :
  nth_error (Character.abilities source) j = Some b ->
  exists b' : Ability.t,
    nth_error
      (Character.abilities
         (Applied.updatedSource (applyAbility source target A isPlayer))) j
    = Some b'
    /\ b' = Ability.with_currentCooldown b (Ability.currentCooldown b')
    /\ (Ability.name b = Ability.name A ->
        Ability.currentCooldown b' = Ability.cooldown b)
    /\ (b = A -> Ability.currentCooldown b' = Ability.cooldown A)
    /\ (Ability.name b <> Ability.name A ->
        Ability.currentCooldown b > 0 ->
        Ability.currentCooldown b' = Ability.currentCooldown b - 1)
    /\ (Ability.name b <> Ability.name A ->
        Ability.currentCooldown b = 0 ->
        Ability.currentCooldown b' = 0).
Proof.
  intros Hb. exists (updateCooldown A b).
  rewrite applyAbility_nth_ability, Hb.
  split; [reflexivity|].
  split; [apply updateCooldown_fields|].
  repeat split.
  - intros E. now rewrite updateCooldown_same_name.
  - intros ->. now rewrite updateCooldown_same_name.
  - intros N P. rewrite updateCooldown_counting by (trivial; lia). reflexivity.
  - intros N Z0. rewrite updateCooldown_idle by (trivial; lia). exact Z0.
Qed.

(** Valdrin heals: Vital Surge, third in his list, is at its cooldown
    of 3 afterwards. *)
Lemma cooldown_update_by_name_witness :
  exists b' : Ability.t,
    nth_error
      (Character.abilities
         (Applied.updatedSource (applyAbility valdrin valdrin vitalSurge true)))
      2
    = Some b'
    /\ Ability.currentCooldown b' = 3.
Proof.
  destruct (cooldown_update_by_name valdrin valdrin vitalSurge true 2 vitalSurge
              eq_refl) as (b' & Hn & _ & _ & Hused & _).
  exists b'. split; [exact Hn | exact (Hused eq_refl)].
Defined.

(** C10.  The used ability is found by its name: in the source's list
    every ability with the name of the used one is put to its own full
    cooldown, not counted down.  So for a source whose ability names are
    pairwise distinct the law holds position by position, for the use of
    any ability of the list; and it breaks as soon as a second ability
    with a cooldown carries the name of the used one. *)
Theorem cooldown_identified_by_name
    (source target : Character.t) (ability : Ability.t) (isPlayer : bool) :
  (forall (j : nat) (b : Ability.t),
      nth_error (Character.abilities source) j = Some b ->
      Ability.name b = Ability.name ability ->
      nth_error
        (Character.abilities
           (Applied.updatedSource (applyAbility source target ability isPlayer)))
        j
      = Some (Ability.with_currentCooldown b (Ability.cooldown b)))
  /\ (NoDup (map Ability.name (Character.abilities source)) ->
      forall i : nat,
        nth_error (Character.abilities source) i = Some ability ->
        cooldown_law
          (Character.abilities source)
          (Character.abilities
             (Applied.updatedSource (applyAbility source target ability isPlayer)))
          i)
  /\ (forall (i j : nat) (b : Ability.t),
        nth_error (Character.abilities source) i = Some ability ->
        nth_error (Character.abilities source) j = Some b ->
        j <> i ->
        Ability.name b = Ability.name ability ->
        0 <= Ability.currentCooldown b <= Ability.cooldown b ->
        0 < Ability.cooldown b ->
        ~ cooldown_law
            (Character.abilities source)
            (Character.abilities
               (Applied.updatedSource (applyAbility source target ability isPlayer)))
            i).
Proof.
  split; [|split].
  - intros j b Hb E.
    rewrite applyAbility_nth_ability, Hb. simpl.
    now rewrite (updateCooldown_same_name ability b E).
  - intros ND i Hi j b Hb.
    exists (updateCooldown ability b).
    rewrite applyAbility_nth_ability, Hb. split; [reflexivity|].
    destruct (Nat.eqb_spec j i) as [->|Hji].
    + now rewrite updateCooldown_same_name by congruence.
    + assert (N : Ability.name b <> Ability.name ability).
      { intros E. apply Hji.
        exact (name_determines_position _ _ _ _ _ ND Hi Hb E). }
      split.
      * intros P. now rewrite updateCooldown_counting by (trivial; lia).
      * intros Z0. now rewrite updateCooldown_idle by (trivial; lia).
  - intros i j b Hi Hb Hji E Hrange Hcd L.
    destruct (L j b Hb) as (b' & Hb' & Hlaw).
    rewrite applyAbility_nth_ability, Hb in Hb'. simpl in Hb'.
    rewrite updateCooldown_same_name in Hb' by exact E.
    injection Hb' as <-.
    apply Nat.eqb_neq in Hji. rewrite Hji in Hlaw. simpl in Hlaw.
    destruct Hlaw as [Hdec Hzero].
    destruct (Z.eq_dec (Ability.currentCooldown b) 0) as [Z0|NZ].
    + specialize (Hzero Z0). lia.
    + assert (P : Ability.currentCooldown b > 0) by lia.
      specialize (Hdec P). lia.
Qed.

(** Valdrin's names are pairwise distinct: the law holds when he casts
    Aegis Ward, second in his list. *)
Lemma cooldown_identified_by_name_witness :
  cooldown_law
    (Character.abilities valdrin)
    (Character.abilities
       (Applied.updatedSource (applyAbility valdrin woundedValdrin aegisWard true)))
    1.
Proof.
  apply (proj1 (proj2 (cooldown_identified_by_name
                         valdrin woundedValdrin aegisWard true))).
  - simpl. repeat constructor; simpl; intuition discriminate.
  - reflexivity.
Defined.

(** ** Turns *)

Section Parity.
Variable t : Z.

(** [t % 2] is one of -1, 0, 1, and tells the parity of [t]. *)
Lemma rem2_cases :
  (Z.rem t 2 = 0 /\ Z.even t = true)
  \/ ((Z.rem t 2 = 1 \/ Z.rem t 2 = -1) /\ Z.even t = false).
Proof.
  pose proof (Z.quot_rem' t 2) as E.
  pose proof (Z.rem_bound_abs t 2 ltac:(lia)) as B.
  assert (P : Z.even t = Z.even (Z.rem t 2)).
  { rewrite E at 1. rewrite Z.add_comm. apply Z.even_add_mul_2. }
  assert (C : Z.rem t 2 = 0 \/ Z.rem t 2 = 1 \/ Z.rem t 2 = -1) by lia.
  destruct C as [C|[C|C]]; rewrite C in P; simpl in P; auto.
Qed.

Lemma rem2_even : (Z.rem t 2 =? 0) = Z.even t.
Proof.
  destruct rem2_cases as [[R ->]|[R ->]].
  - now rewrite R.
  - apply Z.eqb_neq. lia.
Qed.

Lemma even_not_rem2_one : Z.even t = true -> (Z.rem t 2 =? 1) = false.
Proof.
  intros Ev. apply Z.eqb_neq.
  destruct rem2_cases as [[R _]|[_ Od]]; [lia | congruence].
Qed.

Lemma rem2_one_odd : Z.rem t 2 = 1 -> Z.odd t = true.
Proof.
  intros R. rewrite <- Z.negb_even.
  destruct rem2_cases as [[R' _]|[_ ->]]; [lia | reflexivity].
Qed.
End Parity.

Section Guards.
Variables (st : BattleState.t) (ability : Ability.t).

(** The guard of [useAbility], in words. *)
Lemma useAbility_rejects_false :
  useAbility_rejects st ability = false
  <-> Z.even (BattleState.turn st) = true
      /\ Ability.currentCooldown ability <= 0
      /\ BattleState.gameOver st = false.
Proof.
  unfold useAbility_rejects. rewrite rem2_even.
  rewrite !orb_false_iff, negb_false_iff, Z.gtb_ltb, Z.ltb_ge. tauto.
Qed.

Lemma useAbility_rejects_true :
  Z.odd (BattleState.turn st) = true
  \/ Ability.currentCooldown ability > 0
  \/ BattleState.gameOver st = true ->
  useAbility_rejects st ability = true.
Proof.
  unfold useAbility_rejects. rewrite rem2_even, Z.negb_even.
  intros [->|[H| ->]]; [reflexivity| |apply orb_true_r].
  apply Z.gt_lt, Z.gtb_lt in H. rewrite H.
  now rewrite orb_true_r.
Qed.

Lemma enemyTurn_rejects_true :
  Z.even (BattleState.turn st) = true \/ BattleState.gameOver st = true ->
  enemyTurn_rejects st = true.
Proof.
  unfold enemyTurn_rejects.
  intros [Ev| ->]; [|apply orb_true_r].
  now rewrite (even_not_rem2_one _ Ev).
Qed.

Lemma useAbility_accepted :
  useAbility_rejects st ability = false ->
  useAbility (Some st) ability = endTurn (useAbility_nextState st ability).
Proof. intros R. simpl. now rewrite R. Qed.

Lemma useAbility_rejected :
  useAbility_rejects st ability = true ->
  useAbility (Some st) ability = Some st.
Proof. intros R. simpl. now rewrite R. Qed.
End Guards.

Section EnemyDraw.
(** [Math.floor(Math.random() * n)] is an index of an array of length
    [n > 0]. *)
Lemma randomIndex_range (r : Q) (n : nat) :
  (0 <= r)%Q -> (r < 1)%Q -> (0 < n)%nat ->
  0 <= randomIndex r n < Z.of_nat n.
Proof.
  intros H0 H1 Hn. unfold randomIndex.
  set (q := inject_Z (Z.of_nat n)).
  assert (Hq : (0 < q)%Q).
  { unfold q. change 0%Q with (inject_Z 0). rewrite <- Zlt_Qlt. lia. }
  split.
  - change 0 with (Qfloor 0). apply Qfloor_resp_le.
    apply Qmult_le_0_compat; [exact H0 | now apply Qlt_le_weak].
  - rewrite Zlt_Qlt. fold q.
    apply Qle_lt_trans with (y := (r * q)%Q); [apply Qfloor_le|].
    setoid_replace q with (1 * q)%Q at 2 by ring.
    now apply Qmult_lt_compat_r.
Qed.

Lemma index_in_range {A : Type} (arr : list A) (i : Z) :
  0 <= i < Z.of_nat (List.length arr) ->
  exists a : A, index arr i = Some a /\ In a arr.
Proof.
  intros R. unfold index.
  destruct (Z.ltb_spec i 0); [lia|].
  destruct (nth_error arr (Z.to_nat i)) as [a|] eqn:E.
  - exists a. split; [reflexivity|]. eapply nth_error_In; eauto.
  - apply nth_error_None in E. lia.
Qed.

Lemma index_In {A : Type} (arr : list A) (i : Z) (a : A) :
  index arr i = Some a -> In a arr.
Proof.
  unfold index. destruct (i <? 0); [discriminate|]. apply nth_error_In.
Qed.

Variables (r : Q) (st : BattleState.t).

(** Whatever is drawn, [enemyTurn] either gives the state back or ends
    a turn with one of the available abilities. *)
Lemma enemyTurn_cases :
  enemyTurn r (Some st) = Some st
  \/ (enemyTurn_rejects st = false
      /\ exists ability : Ability.t,
           In ability (available st)
           /\ enemyTurn r (Some st)
              = endTurn (enemyTurn_nextState st ability)).
Proof.
  simpl. destruct (enemyTurn_rejects st); [now left|].
  destruct (List.length (available st) =? 0)%nat; [now left|].
  destruct (index _ _) as [a|] eqn:E; [|now left].
  right. split; [reflexivity|]. exists a. split; [|reflexivity].
  eapply index_In; eauto.
Qed.

(** With a draw in [0, 1), a turn that is the enemy's and an ability
    off cooldown, [enemyTurn] acts. *)
Lemma enemyTurn_acts :
  (0 <= r)%Q -> (r < 1)%Q ->
  enemyTurn_rejects st = false ->
  available st <> [] ->
  exists ability : Ability.t,
    In ability (available st)
    /\ enemyTurn r (Some st) = endTurn (enemyTurn_nextState st ability).
Proof.
  intros H0 H1 R NE. simpl. rewrite R.
  destruct (available st) as [|a0 l] eqn:Av; [congruence|].
  assert (Hn : (0 < List.length (a0 :: l))%nat) by (simpl; lia).
  destruct (index_in_range (a0 :: l) _ (randomIndex_range r _ H0 H1 Hn))
    as (a & Ha & Hin).
  simpl Nat.eqb. cbv iota. rewrite Ha. eauto.
Qed.

Lemma available_locked :
  Forall (fun a => Ability.currentCooldown a > 0)
         (Character.abilities (BattleState.enemy st)) ->
  available st = [].
Proof.
  unfold available. induction 1 as [|a l Ha _ IH]; [reflexivity|].
  simpl. unfold offCooldown at 1.
  destruct (Z.eqb_spec (Ability.currentCooldown a) 0); [lia | exact IH].
Qed.
End EnemyDraw.

(** The acting side keeps its hit points above 0 under the ranges of the
    data model. *)
Lemma source_stays_alive
    (source target : Character.t) (ability : Ability.t) (isPlayer : bool) :
  0 < Character.currentHP source ->
  0 <= Ability.power ability ->
  Character.currentHP source <= Character.maxHP source ->
  0 < Character.currentHP
        (Applied.updatedSource (applyAbility source target ability isPlayer)).
Proof.
  intros Hhp Hp Hmax.
  destruct (Ability.type ability) eqn:T.
  2:{ destruct (applyAbility_heal source target ability isPlayer T)
        as (_ & -> & _). lia. }
  all: rewrite applyAbility_source_currentHP by congruence; exact Hhp.
Qed.

(** ** Game over *)

(** The flag is not read from the target alone: brought in with no hit
    points, Valdrin raises a shield, the enemy keeps its 100 hit points
    and the game is over all the same. *)
Lemma gameOver_set_by_acting_side :
  exists st' : BattleState.t,
    useAbility (initBattle fallenValdrin valdrin) aegisWard = Some st'
    /\ BattleState.gameOver st' = true
    /\ Character.currentHP (BattleState.enemy st') = 100
    /\ (Character.currentHP (BattleState.enemy st') <=? 0) = false.
Proof.
  eexists. split; [reflexivity|]. repeat split.
Qed.

(** C3, amended.  After an accepted [useAbility], and after an
    [enemyTurn] that acts, [endTurn] sets [gameOver] to
    [player.currentHP <= 0 || enemy.currentHP <= 0] on the hit points
    after the action.  The flag is the test of the target alone whenever
    the acting side has hit points left after its action, and it has
    when it had some before and the data model's ranges hold (power not
    negative, [currentHP <= maxHP]). *)
Theorem gameOver_after_action :
  (forall (st : BattleState.t) (ability : Ability.t),
      useAbility_rejects st ability = false ->
      exists st' : BattleState.t,
        useAbility (Some st) ability = Some st'
        /\ BattleState.gameOver st'
           = (Character.currentHP (BattleState.player st') <=? 0)
             || (Character.currentHP (BattleState.enemy st') <=? 0)
        /\ (0 < Character.currentHP (BattleState.player st') ->
            BattleState.gameOver st'
            = (Character.currentHP (BattleState.enemy st') <=? 0))
        /\ (0 < Character.currentHP (BattleState.player st) ->
            0 <= Ability.power ability ->
            Character.currentHP (BattleState.player st)
            <= Character.maxHP (BattleState.player st) ->
            0 < Character.currentHP (BattleState.player st')))
  /\ (forall (r : Q) (st : BattleState.t),
         (0 <= r)%Q -> (r < 1)%Q ->
         enemyTurn_rejects st = false ->
         available st <> [] ->
         exists st' : BattleState.t,
           enemyTurn r (Some st) = Some st'
           /\ BattleState.gameOver st'
              = (Character.currentHP (BattleState.player st') <=? 0)
                || (Character.currentHP (BattleState.enemy st') <=? 0)
           /\ (0 < Character.currentHP (BattleState.enemy st') ->
               BattleState.gameOver st'
               = (Character.currentHP (BattleState.player st') <=? 0))
           /\ (0 < Character.currentHP (BattleState.enemy st) ->
               Forall (fun a => 0 <= Ability.power a)
                      (Character.abilities (BattleState.enemy st)) ->
               Character.currentHP (BattleState.enemy st)
               <= Character.maxHP (BattleState.enemy st) ->
               0 < Character.currentHP (BattleState.enemy st'))).
Proof.
  split.
  - intros st ability R. rewrite (useAbility_accepted st ability R).
    eexists. split; [reflexivity|]. simpl. repeat split.
    + intros Alive. apply Z.leb_gt in Alive. now rewrite Alive.
    + apply source_stays_alive.
  - intros r st H0 H1 R NE.
    destruct (enemyTurn_acts r st H0 H1 R NE) as (ability & Hin & ->).
    eexists. split; [reflexivity|]. simpl. repeat split.
    + intros Alive. apply Z.leb_gt in Alive. rewrite Alive.
      apply orb_false_r.
    + intros Alive Pow Max. apply source_stays_alive; trivial.
      unfold available in Hin. apply filter_In in Hin.
      rewrite Forall_forall in Pow. now apply Pow.
Qed.

(** Valdrin opens against his double, and the double answers: both
    stand afterwards, and the flag is the test of the one who was
    struck. *)
Lemma gameOver_after_action_witness :
  (exists st' : BattleState.t,
      useAbility (Some openingState) flameLash = Some st'
      /\ BattleState.gameOver st'
         = (Character.currentHP (BattleState.enemy st') <=? 0))
  /\ (exists st' : BattleState.t,
         enemyTurn (1 # 2) (Some enemyToMove) = Some st'
         /\ BattleState.gameOver st'
            = (Character.currentHP (BattleState.player st') <=? 0)).
Proof.
  split.
  - destruct (proj1 gameOver_after_action openingState flameLash eq_refl)
      as (st' & Hrun & _ & Htarget & Halive).
    exists st'. split; [exact Hrun|].
    apply Htarget, Halive; simpl; lia.
  - assert (H0 : (0 <= 1 # 2)%Q) by (unfold Qle; simpl; lia).
    assert (H1 : (1 # 2 < 1)%Q) by (unfold Qlt; simpl; lia).
    assert (NE : available enemyToMove <> []) by discriminate.
    destruct (proj2 gameOver_after_action (1 # 2)%Q enemyToMove H0 H1 eq_refl NE)
      as (st' & Hrun & _ & Htarget & Halive).
    exists st'. split; [exact Hrun|].
    apply Htarget, Halive; simpl; try lia.
    repeat constructor; simpl; lia.
Defined.

(** ** Rejected calls *)

(** C4.  [useAbility] gives the state back as it was, every field of it,
    when the state is not initialised, when the turn is odd, when the
    ability it is passed is counting down, and when the game is over;
    [enemyTurn] does when the state is not initialised, when the turn is
    even, and when the game is over.  So after [gameOver] no call of
    either changes hit points, shields, turn or log. *)
Theorem rejected_calls_change_nothing :
  (forall ability : Ability.t, useAbility None ability = None)
  /\ (forall (st : BattleState.t) (ability : Ability.t),
         Z.odd (BattleState.turn st) = true
         \/ Ability.currentCooldown ability > 0
         \/ BattleState.gameOver st = true ->
         useAbility (Some st) ability = Some st)
  /\ (forall r : Q, enemyTurn r None = None)
  /\ (forall (r : Q) (st : BattleState.t),
         Z.even (BattleState.turn st) = true
         \/ BattleState.gameOver st = true ->
         enemyTurn r (Some st) = Some st).
Proof.
  repeat split; try reflexivity.
  - intros st ability H.
    apply useAbility_rejected, useAbility_rejects_true, H.
  - intros r st H. simpl.
    now rewrite (enemyTurn_rejects_true st H).
Qed.

(** Once the game is over nothing moves, whoever is called. *)
Lemma rejected_calls_change_nothing_witness :
  useAbility (Some finishedState) flameLash = Some finishedState
  /\ enemyTurn (1 # 2) (Some finishedState) = Some finishedState.
Proof.
  split.
  - apply (proj1 (proj2 rejected_calls_change_nothing)).
    right. right. reflexivity.
  - apply (proj2 (proj2 (proj2 rejected_calls_change_nothing))).
    right. reflexivity.
Defined.

(** C6.  On the enemy's move (turn odd, game not over), an enemy whose
    abilities are all counting down does nothing: [enemyTurn] gives the
    state back as it was, so no log entry, no change of hit points or
    shield on either side, and the same, odd, turn. *)
Theorem locked_enemy_stalls (r : Q) (st : BattleState.t) :
  Z.odd (BattleState.turn st) = true ->
  BattleState.gameOver st = false ->
  Forall (fun a => Ability.currentCooldown a > 0)
         (Character.abilities (BattleState.enemy st)) ->
  enemyTurn r (Some st) = Some st.
Proof.
  intros _ _ Locked. simpl.
  rewrite (available_locked st Locked). simpl.
  now destruct (enemyTurn_rejects st).
Qed.

Lemma locked_enemy_stalls_witness :
  enemyTurn (1 # 3) (Some stalledState) = Some stalledState.
Proof.
  apply locked_enemy_stalls.
  - reflexivity.
  - reflexivity.
  - repeat constructor.
Defined.

(** ** Turn parity and the log *)

(** C7.  A call of [useAbility] either gives the state back, or was made
    on a turn with [turn % 2 = 0] and leaves a state with the turn one
    higher and the log longer by exactly one entry at its end; a call of
    [enemyTurn] likewise, on a turn with [turn % 2 = 1].  The enemy with
    nothing off cooldown gives the state, and so the turn, back. *)
Theorem turn_parity_and_log :
  (forall (st : BattleState.t) (ability : Ability.t),
      useAbility (Some st) ability = Some st
      \/ (Z.rem (BattleState.turn st) 2 = 0
          /\ exists (st' : BattleState.t) (entry : string),
               useAbility (Some st) ability = Some st'
               /\ BattleState.turn st' = BattleState.turn st + 1
               /\ BattleState.log st' = BattleState.log st ++ [entry]))
  /\ (forall (r : Q) (st : BattleState.t),
         enemyTurn r (Some st) = Some st
         \/ (Z.rem (BattleState.turn st) 2 = 1
             /\ exists (st' : BattleState.t) (entry : string),
                  enemyTurn r (Some st) = Some st'
                  /\ BattleState.turn st' = BattleState.turn st + 1
                  /\ BattleState.log st' = BattleState.log st ++ [entry]))
  /\ (forall (r : Q) (st : BattleState.t),
         available st = [] -> enemyTurn r (Some st) = Some st)
  /\ (forall (ability : Ability.t) (r : Q),
         useAbility None ability = None /\ enemyTurn r None = None).
Proof.
  repeat split.
  - intros st ability.
    destruct (useAbility_rejects st ability) eqn:R.
    + left. now apply useAbility_rejected.
    + right. rewrite (useAbility_accepted st ability R). split.
      * unfold useAbility_rejects in R.
        rewrite !orb_false_iff, negb_false_iff in R.
        now apply Z.eqb_eq.
      * do 2 eexists. split; [reflexivity|]. split; reflexivity.
  - intros r st.
    destruct (enemyTurn_cases r st) as [Same|(R & ability & _ & ->)].
    + now left.
    + right. split.
      * unfold enemyTurn_rejects in R.
        rewrite orb_false_iff, negb_false_iff in R.
        now apply Z.eqb_eq.
      * do 2 eexists. split; [reflexivity|]. split; reflexivity.
  - intros r st Av. simpl. rewrite Av. simpl.
    now destruct (enemyTurn_rejects st).
Qed.

(** The locked enemy of [stalledState] leaves turn 5 as it is. *)
Lemma turn_parity_and_log_witness :
  enemyTurn (2 # 3) (Some stalledState) = Some stalledState
  /\ BattleState.turn stalledState = 5.
Proof.
  split; [|reflexivity].
  apply (proj1 (proj2 (proj2 turn_parity_and_log))).
  reflexivity.
Defined.

(** ** Initialisation *)

(** C8.  Whatever hit points the two combatants are given, the battle
    starts at turn 0 with [gameOver = false]; and there [useAbility]
    accepts any ability that is off cooldown: it leaves another state,
    at turn 1, with the ability applied by the player against the
    enemy. *)
Theorem init_never_game_over (player enemy : Character.t) :
  exists st0 : BattleState.t,
    initBattle player enemy = Some st0
    /\ BattleState.gameOver st0 = false
    /\ BattleState.turn st0 = 0
    /\ Character.currentHP (BattleState.player st0) = Character.currentHP player
    /\ Character.currentHP (BattleState.enemy st0) = Character.currentHP enemy
    /\ forall ability : Ability.t,
         Ability.currentCooldown ability <= 0 ->
         exists st' : BattleState.t,
           useAbility (Some st0) ability = Some st'
           /\ Some st' <> Some st0
           /\ BattleState.turn st' = 1
           /\ BattleState.player st'
              = Applied.updatedSource
                  (applyAbility (Character.reset player) (Character.reset enemy)
                                ability true)
           /\ BattleState.enemy st'
              = Applied.updatedTarget
                  (applyAbility (Character.reset player) (Character.reset enemy)
                                ability true).
Proof.
  eexists. split; [reflexivity|]. do 4 (split; [reflexivity|]).
  intros ability Off.
  rewrite useAbility_accepted
    by (apply useAbility_rejects_false; simpl; auto).
  eexists. split; [reflexivity|]. repeat split.
  intros E. injection E. discriminate.
Qed.

(** Both combatants brought in with no hit points: the player still
    strikes, and the turn passes. *)
Lemma init_never_game_over_witness :
  exists st' : BattleState.t,
    useAbility (initBattle fallenValdrin fallenValdrin) flameLash = Some st'
    /\ BattleState.turn st' = 1.
Proof.
  destruct (init_never_game_over fallenValdrin fallenValdrin)
    as (st0 & Hinit & _ & _ & _ & _ & Huse).
  destruct (Huse flameLash ltac:(simpl; lia)) as (st' & Hrun & _ & Hturn & _).
  exists st'. rewrite Hinit. split; [exact Hrun | exact Hturn].
Defined.

(** ** The guard of [useAbility] *)

(** C9.  On an even turn, with the game not over and the state
    initialised, [useAbility] applies any ability value whose own
    [currentCooldown] is 0: nothing is asked of the player's list,
    neither that the ability is in it nor what countdown the list keeps
    under that name; and an ability value whose own countdown is
    running is turned down whatever the list says. *)
Theorem useAbility_trusts_argument (st : BattleState.t) (ability : Ability.t) :
  Z.even (BattleState.turn st) = true ->
  BattleState.gameOver st = false ->
  (Ability.currentCooldown ability = 0 ->
   useAbility (Some st) ability = endTurn (useAbility_nextState st ability)
   /\ exists st' : BattleState.t,
        useAbility (Some st) ability = Some st'
        /\ BattleState.turn st' = BattleState.turn st + 1
        /\ BattleState.player st'
           = Applied.updatedSource
               (applyAbility (BattleState.player st) (BattleState.enemy st)
                             ability true)
        /\ BattleState.enemy st'
           = Applied.updatedTarget
               (applyAbility (BattleState.player st) (BattleState.enemy st)
                             ability true))
  /\ (Ability.currentCooldown ability > 0 ->
      useAbility (Some st) ability = Some st).
Proof.
  intros Ev Go. split.
  - intros Off.
    rewrite useAbility_accepted
      by (apply useAbility_rejects_false; repeat split; trivial; lia).
    split; [reflexivity|].
    eexists. split; [reflexivity|]. repeat split.
  - intros On. apply useAbility_rejected, useAbility_rejects_true. auto.
Qed.

(** The player opens with a spell of nobody's list: it is applied, and
    fells the enemy. *)
Lemma useAbility_trusts_argument_witness :
  ~ In strayCurse (Character.abilities (BattleState.player openingState))
  /\ exists st' : BattleState.t,
       useAbility (Some openingState) strayCurse = Some st'
       /\ BattleState.turn st' = 1
       /\ Character.currentHP (BattleState.enemy st') = 0.
Proof.
  split.
  - intros H. vm_compute in H. intuition discriminate.
  - destruct (proj1 (useAbility_trusts_argument openingState strayCurse
                       eq_refl eq_refl) eq_refl)
      as (_ & st' & Hrun & Hturn & _ & Henemy).
    exists st'. split; [exact Hrun|]. split; [exact Hturn|].
    rewrite Henemy. reflexivity.
Defined.

(** The guard reads the countdown of the value it is handed: Aegis Ward
    counts down from 2 in the player's list of [staleState], and the
    copy of it that still says 0 raises the shield once more. *)
Example stale_copy_is_applied :
  In (Ability.with_currentCooldown aegisWard 2)
     (Character.abilities (BattleState.player staleState))
  /\ option_map (fun st' => Character.shield (BattleState.player st'))
       (useAbility (Some staleState) aegisWard)
     = Some 70
  /\ useAbility (Some staleState) (Ability.with_currentCooldown aegisWard 2)
     = Some staleState.
Proof.
  split; [simpl; auto|]. split; reflexivity.
Qed.

(** * Further properties of the engine *)

(** ** The other branches of [applyAbility] *)

Lemma or_zero_id (n : Z) : or_zero n = n.
Proof.
  unfold or_zero, truthy. destruct (Z.eqb_spec n 0); simpl; congruence.
Qed.

Section Branches.
Variables (source target : Character.t) (ability : Ability.t)
          (isPlayer : bool).

Let r := applyAbility source target ability isPlayer.

Lemma applyAbility_shield :
  Ability.type ability = Shield ->
  Applied.effect r
  = Some (Effect.mk EShield (source_side isPlayer) (Ability.power ability))
  /\ Character.shield (Applied.updatedSource r)
     = Character.shield source + Ability.power ability.
Proof.
  subst r. unfold applyAbility, applyEffect. intros ->. simpl.
  now rewrite or_zero_id.
Qed.

Lemma applyAbility_buff :
  Ability.type ability = Buff ->
  Applied.effect r = None
  /\ Applied.logEntry r
     = (Character.name source ++ " použil " ++ Ability.name ability)%string.
Proof.
  subst r. unfold applyAbility, applyEffect. intros ->. simpl. auto.
Qed.

(** What no branch touches. *)
Lemma applyAbility_maxHP :
  Character.maxHP (Applied.updatedSource r) = Character.maxHP source
  /\ Character.maxHP (Applied.updatedTarget r) = Character.maxHP target.
Proof.
  subst r. unfold applyAbility, applyEffect.
  destruct (Ability.type ability); try (split; reflexivity).
  destruct (truthy _ && _); split; reflexivity.
Qed.

Lemma applyAbility_target_abilities :
  Character.abilities (Applied.updatedTarget r) = Character.abilities target.
Proof.
  subst r. unfold applyAbility, applyEffect.
  destruct (Ability.type ability); try reflexivity.
  destruct (truthy _ && _); reflexivity.
Qed.

(** The attack branch under the ranges of the data model: what the
    shield takes and what reaches the hit points. *)
Lemma applyAbility_attack_in_range :
  Ability.type ability = Attack ->
  0 <= Ability.power ability ->
  0 <= Character.shield target ->
  exists absorbed damage : Z,
    0 <= absorbed /\ 0 <= damage
    /\ absorbed + damage = Ability.power ability
    /\ absorbed <= Character.shield target
    /\ (damage = 0 \/ absorbed = Character.shield target)
    /\ Applied.effect r
       = Some (Effect.mk EDamage (target_side isPlayer) damage)
    /\ Character.shield (Applied.updatedTarget r)
       = Character.shield target - absorbed
    /\ Character.currentHP (Applied.updatedTarget r)
       = Z.max (Character.currentHP target - damage) 0.
Proof.
  intros T Hp Hs.
  destruct (applyAbility_attack source target ability isPlayer T)
    as (He & Hsh & Hhp). fold r in He, Hsh, Hhp.
  set (absorbed := if 0 <? Character.shield target
                   then Z.min (Ability.power ability) (Character.shield target)
                   else 0) in *.
  exists absorbed, (Ability.power ability - absorbed).
  assert (0 <= absorbed <= Character.shield target
          /\ absorbed <= Ability.power ability
          /\ (Ability.power ability - absorbed = 0
              \/ absorbed = Character.shield target)) as (Ha & Hb & Hc).
  { subst absorbed. destruct (Z.ltb_spec 0 (Character.shield target)); lia. }
  repeat split; trivial; lia.
Qed.
End Branches.

(** X1.  A shield ability adds its power to the shield the source has,
    none or some; it touches neither the hit points of the source nor
    anything of the target, and its effect record is
    [{shield, source side, power}]. *)
Theorem shield_adds_power
    (source target : Character.t) (ability : Ability.t) (isPlayer : bool) :
  Ability.type ability = Shield ->
  Character.shield
    (Applied.updatedSource (applyAbility source target ability isPlayer))
  = Character.shield source + Ability.power ability
  /\ Character.currentHP
       (Applied.updatedSource (applyAbility source target ability isPlayer))
     = Character.currentHP source
  /\ Applied.updatedTarget (applyAbility source target ability isPlayer)
     = target
  /\ Applied.effect (applyAbility source target ability isPlayer)
     = Some (Effect.mk EShield (source_side isPlayer) (Ability.power ability)).
Proof.
  intros T.
  destruct (applyAbility_shield source target ability isPlayer T) as (He & Hs).
  rewrite He, Hs, applyAbility_source_currentHP, applyAbility_target
    by congruence.
  repeat split.
Qed.

(** Two wards, one after the other: 35 and 35 make 70. *)
Lemma shield_adds_power_witness :
  Character.shield
    (Applied.updatedSource
       (applyAbility
          (Applied.updatedSource (applyAbility valdrin valdrin aegisWard true))
          valdrin moltenShell true))
  = 70.
Proof.
  rewrite (proj1 (shield_adds_power _ valdrin moltenShell true eq_refl)).
  rewrite (proj1 (shield_adds_power valdrin valdrin aegisWard true eq_refl)).
  reflexivity.
Defined.

(** X2.  An ability of the type ["buff"], for which the engine has no
    rule, changes no number: no effect record, the target as it was,
    hit points and shield of the source as they were; only the log line
    ["<source> použil <ability>"] and the cooldown pass remain. *)
Theorem buff_changes_no_number
    (source target : Character.t) (ability : Ability.t) (isPlayer : bool) :
  Ability.type ability = Buff ->
  Applied.effect (applyAbility source target ability isPlayer) = None
  /\ Applied.updatedTarget (applyAbility source target ability isPlayer)
     = target
  /\ Applied.updatedSource (applyAbility source target ability isPlayer)
     = Character.with_abilities source
         (map (updateCooldown ability) (Character.abilities source))
  /\ Applied.logEntry (applyAbility source target ability isPlayer)
     = (Character.name source ++ " použil " ++ Ability.name ability)%string.
Proof.
  intros T.
  destruct (applyAbility_buff source target ability isPlayer T) as (He & Hl).
  rewrite He, Hl, applyAbility_target by congruence.
  repeat split.
  unfold applyAbility, applyEffect. now rewrite T.
Qed.

Lemma buff_changes_no_number_witness :
  Applied.logEntry
    (applyAbility valdrin valdrin
       (Ability.mk "War Cry" "" Buff 10 2 0) true)
  = "Valdrin Embercloak použil War Cry".
Proof.
  destruct (buff_changes_no_number valdrin valdrin
              (Ability.mk "War Cry" "" Buff 10 2 0) true eq_refl)
    as (_ & _ & _ & Hl).
  rewrite Hl. reflexivity.
Defined.



(** ** What an action keeps *)

Section Kept.
Variable ability : Ability.t.

(** Apart from the countdown an ability stays what it was. *)
Lemma updateCooldown_static (a : Ability.t) (c : Z) :
  Ability.with_currentCooldown (updateCooldown ability a) c
  = Ability.with_currentCooldown a c.
Proof. now rewrite updateCooldown_fields. Qed.

Lemma updateCooldown_in_range (a : Ability.t) :
  abilityInRange a -> abilityInRange (updateCooldown ability a).
Proof.
  unfold abilityInRange, updateCooldown. intros (Hp & Hc).
  destruct (_ =? _)%string; [simpl; lia|].
  destruct (Ability.currentCooldown a >? 0) eqn:G; [|auto].
  apply Z.gtb_lt in G. simpl. lia.
Qed.

Lemma updateCooldown_alwaysReady (a : Ability.t) :
  alwaysReady a -> alwaysReady (updateCooldown ability a).
Proof.
  unfold alwaysReady, updateCooldown. intros (Hc & Hz).
  destruct (_ =? _)%string; [simpl; auto|].
  rewrite Hz. simpl. auto.
Qed.

Variables (source target : Character.t) (isPlayer : bool).

Let r := applyAbility source target ability isPlayer.

Lemma applyAbility_wellFormed_source :
  wellFormed source -> 0 <= Ability.power ability ->
  wellFormed (Applied.updatedSource r).
Proof.
  intros (Hhp & Hsh & Hab) Hp. subst r. unfold wellFormed.
  rewrite (proj1 (applyAbility_maxHP source target ability isPlayer)).
  rewrite applyAbility_abilities.
  split; [|split].
  - destruct (Ability.type ability) eqn:T.
    2:{ destruct (applyAbility_heal source target ability isPlayer T)
          as (_ & -> & _). lia. }
    all: rewrite applyAbility_source_currentHP by congruence; exact Hhp.
  - destruct (Ability.type ability) eqn:T.
    3:{ destruct (applyAbility_shield source target ability isPlayer T)
          as (_ & ->). lia. }
    all: rewrite applyAbility_source_shield by congruence; exact Hsh.
  - apply Forall_map. revert Hab. apply Forall_impl.
    exact updateCooldown_in_range.
Qed.

Lemma applyAbility_wellFormed_target :
  wellFormed target -> 0 <= Ability.power ability ->
  wellFormed (Applied.updatedTarget r).
Proof.
  intros W Hp. subst r.
  destruct (Ability.type ability) eqn:T.
  2-4: rewrite applyAbility_target by congruence; exact W.
  destruct W as (Hhp & Hsh & Hab). unfold wellFormed.
  rewrite (proj2 (applyAbility_maxHP source target ability isPlayer)).
  rewrite applyAbility_target_abilities.
  destruct (applyAbility_attack_in_range source target ability isPlayer T Hp Hsh)
    as (absorbed & damage & Ha & Hd & Hsum & Hle & Hor & He & -> & ->).
  repeat split; trivial; lia.
Qed.

Lemma applyAbility_effect_value :
  wellFormed source -> wellFormed target -> 0 <= Ability.power ability ->
  match Applied.effect r with
  | Some e => 0 <= Effect.value e <= Ability.power ability
  | None => Ability.type ability = Buff
  end.
Proof.
  intros (Hhp & _) (_ & Hsh & _) Hp. subst r.
  destruct (Ability.type ability) eqn:T.
  - destruct (applyAbility_attack_in_range source target ability isPlayer T Hp Hsh)
      as (absorbed & damage & Ha & Hd & Hsum & Hle & Hor & -> & _).
    simpl. lia.
  - destruct (applyAbility_heal source target ability isPlayer T) as (-> & _).
    simpl. lia.
  - destruct (applyAbility_shield source target ability isPlayer T) as (-> & _).
    simpl. lia.
  - now destruct (applyAbility_buff source target ability isPlayer T) as (-> & _).
Qed.
End Kept.

(** X4.  An action leaves the identity of both combatants alone (name
    and [maxHP] among it), and the whole ability list of the target:
    the countdowns of a combatant move on its own actions only.  In the
    list of the source the abilities stay in place and change in their
    countdown only. *)
Theorem applyAbility_keeps_identity
    (source target : Character.t) (ability : Ability.t) (isPlayer : bool) :
  Character.with_abilities
    (Character.with_shield
       (Character.with_currentHP
          (Applied.updatedSource (applyAbility source target ability isPlayer))
          0) 0) []
  = Character.with_abilities
      (Character.with_shield (Character.with_currentHP source 0) 0) []
  /\ Character.with_shield
       (Character.with_currentHP
          (Applied.updatedTarget (applyAbility source target ability isPlayer))
          0) 0
     = Character.with_shield (Character.with_currentHP target 0) 0
  /\ map (fun a => Ability.with_currentCooldown a 0)
       (Character.abilities
          (Applied.updatedSource (applyAbility source target ability isPlayer)))
     = map (fun a => Ability.with_currentCooldown a 0)
         (Character.abilities source).
Proof.
  split; [|split].
  - unfold applyAbility, applyEffect.
    destruct (Ability.type ability); try reflexivity.
    destruct (truthy _ && _); reflexivity.
  - unfold applyAbility, applyEffect.
    destruct (Ability.type ability); try reflexivity.
    destruct (truthy _ && _); reflexivity.
  - rewrite applyAbility_abilities, map_map.
    apply map_ext. intros a. apply updateCooldown_static.
Qed.

(** X5.  An action keeps the ranges of the data model: with source and
    target well formed and a power that is not negative, both are well
    formed afterwards, and the value of the effect record lies between
    0 and the power (the record is missing for a ["buff"] only). *)
Theorem applyAbility_keeps_ranges
    (source target : Character.t) (ability : Ability.t) (isPlayer : bool) :
  wellFormed source -> wellFormed target -> 0 <= Ability.power ability ->
  wellFormed
    (Applied.updatedSource (applyAbility source target ability isPlayer))
  /\ wellFormed
       (Applied.updatedTarget (applyAbility source target ability isPlayer))
  /\ match Applied.effect (applyAbility source target ability isPlayer) with
     | Some e => 0 <= Effect.value e <= Ability.power ability
     | None => Ability.type ability = Buff
     end.
Proof.
  intros Ws Wt Hp. split; [|split].
  - now apply applyAbility_wellFormed_source.
  - now apply applyAbility_wellFormed_target.
  - now apply applyAbility_effect_value.
Qed.

Lemma valdrin_wellFormed : wellFormed valdrin.
Proof.
  unfold wellFormed, abilityInRange. simpl.
  repeat split; try lia. repeat constructor; simpl; lia.
Qed.

Lemma woundedValdrin_wellFormed : wellFormed woundedValdrin.
Proof.
  unfold wellFormed, abilityInRange. simpl.
  repeat split; try lia. repeat constructor; simpl; lia.
Qed.

(** Infernal Blast on the wounded double: 60 hit points are left, no
    shield, and Valdrin stays in range too. *)
Lemma applyAbility_keeps_ranges_witness :
  wellFormed
    (Applied.updatedSource (applyAbility valdrin woundedValdrin infernalBlast true))
  /\ wellFormed
       (Applied.updatedTarget (applyAbility valdrin woundedValdrin infernalBlast true)).
Proof.
  destruct (applyAbility_keeps_ranges valdrin woundedValdrin infernalBlast true
              valdrin_wellFormed woundedValdrin_wellFormed)
    as (Ws & Wt & _).
  - simpl. lia.
  - split; [exact Ws | exact Wt].
Defined.

(** ** Sequences of calls *)

Section Steps.
Variable st : BattleState.t.

Lemma useAbility_cases (ability : Ability.t) :
  useAbility (Some st) ability = Some st
  \/ (useAbility_rejects st ability = false
      /\ useAbility (Some st) ability
         = endTurn (useAbility_nextState st ability)).
Proof.
  destruct (useAbility_rejects st ability) eqn:R.
  - left. now apply useAbility_rejected.
  - right. split; [reflexivity|]. now apply useAbility_accepted.
Qed.

Lemma enemyTurn_rejects_false :
  enemyTurn_rejects st = false
  <-> Z.rem (BattleState.turn st) 2 = 1 /\ BattleState.gameOver st = false.
Proof.
  unfold enemyTurn_rejects.
  rewrite orb_false_iff, negb_false_iff, Z.eqb_eq. tauto.
Qed.

(** A call gives the state back, or ends the turn on a [nextState] of
    the same turn, the log longer by one, made in a game not over. *)
Lemma step_cases (act : Action) :
  step (Some st) act = Some st
  \/ exists nextState : BattleState.t,
       step (Some st) act = endTurn nextState
       /\ BattleState.gameOver st = false
       /\ BattleState.turn nextState = BattleState.turn st
       /\ (exists entry : string,
              BattleState.log nextState = BattleState.log st ++ [entry])
       /\ match act with
          | PlayerUses ability =>
              Z.rem (BattleState.turn st) 2 = 0
              /\ nextState = useAbility_nextState st ability
          | EnemyMoves _ =>
              Z.rem (BattleState.turn st) 2 = 1
              /\ exists ability : Ability.t,
                   In ability (available st)
                   /\ nextState = enemyTurn_nextState st ability
          end.
Proof.
  destruct act as [ability|r]; cbv [step].
  - destruct (useAbility_cases ability) as [Same|(R & ->)]; [now left|].
    right. eexists. split; [reflexivity|].
    unfold useAbility_rejects in R.
    rewrite !orb_false_iff, negb_false_iff, Z.eqb_eq in R.
    destruct R as ((Hrem & _) & Hgo).
    repeat split; trivial. simpl. eauto.
  - destruct (enemyTurn_cases r st) as [Same|(R & ability & Hin & ->)];
      [now left|].
    right. eexists. split; [reflexivity|].
    apply enemyTurn_rejects_false in R. destruct R as (Hrem & Hgo).
    repeat split; trivial; simpl; eauto.
Qed.

Lemma step_initialised (act : Action) :
  exists st' : BattleState.t, step (Some st) act = Some st'.
Proof.
  destruct (step_cases act) as [->|(nx & -> & _)]; eexists; reflexivity.
Qed.
End Steps.

Lemma run_cons (state : option BattleState.t) (act : Action) (acts : list Action) :
  run state (act :: acts) = run (step state act) acts.
Proof. reflexivity. Qed.

Lemma run_None (acts : list Action) : run None acts = None.
Proof.
  induction acts as [|[a|r] acts IH]; [reflexivity| |]; rewrite run_cons; exact IH.
Qed.

(** Along any sequence of calls the turn goes up by at most one a call
    and the log grows at its end, by one entry for each turn. *)
Lemma run_log (acts : list Action) :
  forall st : BattleState.t,
  exists (st' : BattleState.t) (more : list string),
    run (Some st) acts = Some st'
    /\ BattleState.log st' = BattleState.log st ++ more
    /\ BattleState.turn st' = BattleState.turn st + Z.of_nat (List.length more)
    /\ (List.length more <= List.length acts)%nat.
Proof.
  induction acts as [|act acts IH]; intros st.
  - exists st, []. simpl. rewrite app_nil_r, Z.add_0_r. auto.
  - rewrite run_cons.
    destruct (step_cases st act)
      as [->|(nx & -> & _ & Hturn & (entry & Hlog) & _)].
    + destruct (IH st) as (st' & more & Hrun & Hl & Ht & Hn).
      exists st', more. repeat split; trivial. simpl. lia.
    + unfold endTurn.
      match goal with |- context [run (Some ?s) _] =>
        destruct (IH s) as (st' & more & Hrun & Hl & Ht & Hn) end.
      simpl in Hl, Ht. rewrite Hlog, <- app_assoc in Hl. rewrite Hturn in Ht.
      exists st', ([entry] ++ more). repeat split; trivial.
      * rewrite Ht, length_app. simpl List.length. lia.
      * rewrite length_app. simpl. lia.
Qed.

(** X6.  Whatever the combatants and whatever is called afterwards, in
    which order and how often, the state stays initialised, the log
    still begins with the opening line and has exactly one entry more
    than the turn says, and the turn is at most the number of calls. *)
Theorem log_counts_the_turns
    (player enemy : Character.t) (acts : list Action) :
  exists (st : BattleState.t) (entries : list string),
    run (initBattle player enemy) acts = Some st
    /\ BattleState.log st = "Souboj začal!" :: entries
    /\ Z.of_nat (List.length (BattleState.log st)) = BattleState.turn st + 1
    /\ 0 <= BattleState.turn st <= Z.of_nat (List.length acts).
Proof.
  unfold initBattle.
  match goal with |- context [run (Some ?s) _] =>
    destruct (run_log acts s) as (st & more & Hrun & Hl & Ht & Hn) end.
  simpl in Hl, Ht.
  exists st, more. rewrite Hl, Ht. simpl List.length.
  repeat split; trivial; lia.
Qed.

Section InOrder.
Variable st : BattleState.t.
Hypothesis Ord : battleInOrder st.

Lemma inOrder_alive :
  BattleState.gameOver st = false ->
  0 < Character.currentHP (BattleState.player st)
  /\ 0 < Character.currentHP (BattleState.enemy st).
Proof.
  destruct Ord as (_ & _ & _ & -> & _).
  rewrite orb_false_iff, !Z.leb_gt. auto.
Qed.

Lemma endTurn_inOrder (nextState : BattleState.t) :
  wellFormed (BattleState.player nextState) ->
  wellFormed (BattleState.enemy nextState) ->
  0 < Character.currentHP (BattleState.player nextState)
  \/ 0 < Character.currentHP (BattleState.enemy nextState) ->
  BattleState.turn nextState = BattleState.turn st ->
  exists st' : BattleState.t,
    endTurn nextState = Some st' /\ battleInOrder st'.
Proof.
  intros Wp We Alive Hturn. eexists. split; [reflexivity|].
  destruct Ord as (_ & _ & _ & _ & Ht).
  unfold battleInOrder. simpl. repeat split; trivial; try apply Wp; try apply We.
  lia.
Qed.

Lemma step_inOrder (act : Action) :
  powerInRange act ->
  exists st' : BattleState.t,
    step (Some st) act = Some st' /\ battleInOrder st'.
Proof.
  intros Hp.
  destruct (step_cases st act) as [->|(nx & -> & Hgo & Hturn & _ & Hact)];
    [eauto|].
  destruct (inOrder_alive Hgo) as (Ap & Ae).
  destruct Ord as (Wp & We & _).
  destruct act as [ability|r].
  - destruct Hact as (_ & ->). simpl in Hp.
    apply endTurn_inOrder; simpl; trivial.
    + now apply applyAbility_wellFormed_source.
    + now apply applyAbility_wellFormed_target.
    + left. apply source_stays_alive; trivial; apply Wp.
  - destruct Hact as (_ & ability & Hin & ->).
    assert (Pow : 0 <= Ability.power ability).
    { apply filter_In in Hin. destruct Hin as (Hin & _).
      destruct We as (_ & _ & Hab). rewrite Forall_forall in Hab.
      now apply Hab. }
    apply endTurn_inOrder; simpl; trivial.
    + now apply applyAbility_wellFormed_target.
    + now apply applyAbility_wellFormed_source.
    + right. apply source_stays_alive; trivial; apply We.
Qed.
End InOrder.

Lemma run_inOrder (acts : list Action) :
  forall st : BattleState.t,
    battleInOrder st -> Forall powerInRange acts ->
    exists st' : BattleState.t,
      run (Some st) acts = Some st' /\ battleInOrder st'.
Proof.
  induction acts as [|act acts IH]; intros st Ord Hp.
  - exists st. auto.
  - rewrite run_cons. inversion Hp as [|? ? Hact Hrest]; subst.
    destruct (step_inOrder st Ord act Hact) as (st1 & -> & Ord1).
    now apply IH.
Qed.

Lemma reset_wellFormed (c : Character.t) :
  wellFormed c -> wellFormed (Character.reset c).
Proof.
  intros (Hhp & _ & Hab). unfold wellFormed. simpl. repeat split; trivial; lia.
Qed.

(** X7.  A battle that starts in order stays in order.  With two well
    formed combatants, both with hit points left, every state reached
    by any sequence of calls (the player using abilities of a power
    that is not negative) has both combatants well formed, never both
    of them down, and [gameOver] set exactly when one of them is. *)
Theorem battle_stays_in_order
    (player enemy : Character.t) (acts : list Action) :
  wellFormed player -> wellFormed enemy ->
  0 < Character.currentHP player -> 0 < Character.currentHP enemy ->
  Forall powerInRange acts ->
  exists st : BattleState.t,
    run (initBattle player enemy) acts = Some st /\ battleInOrder st.
Proof.
  intros Wp We Ap Ae Hacts. unfold initBattle.
  apply run_inOrder; trivial.
  unfold battleInOrder. simpl.
  repeat split; try (apply reset_wellFormed; assumption); auto; lia.
Qed.

(** Valdrin against his double: blast, answer, ward, answer. *)
Lemma battle_stays_in_order_witness :
  exists st : BattleState.t,
    run (initBattle valdrin valdrin)
        [PlayerUses infernalBlast; EnemyMoves (1 # 2);
         PlayerUses aegisWard; EnemyMoves (1 # 5)]
    = Some st
    /\ battleInOrder st.
Proof.
  apply battle_stays_in_order.
  - exact valdrin_wellFormed.
  - exact valdrin_wellFormed.
  - simpl. lia.
  - simpl. lia.
  - repeat constructor; simpl; lia.
Defined.

(** ** Dead ends and alternation *)

Lemma enemyTurn_none_available (r : Q) (st : BattleState.t) :
  available st = [] -> enemyTurn r (Some st) = Some st.
Proof.
  intros Av. simpl. rewrite Av. simpl. now destruct (enemyTurn_rejects st).
Qed.

(** One more turn flips the parity the two guards look at. *)
Lemma next_turn_rejects (t : Z) :
  (Z.rem t 2 = 0 -> (Z.rem (t + 1) 2 =? 0) = false)
  /\ (Z.rem t 2 = 1 -> (Z.rem (t + 1) 2 =? 1) = false)
  /\ (Z.rem t 2 = 0 -> 0 <= t -> Z.rem (t + 1) 2 = 1).
Proof.
  repeat split.
  - intros R. rewrite rem2_even. change (t + 1) with (Z.succ t).
    rewrite Z.even_succ, <- Z.negb_even, <- rem2_even, R. reflexivity.
  - intros R. apply even_not_rem2_one. change (t + 1) with (Z.succ t).
    rewrite Z.even_succ. now apply rem2_one_odd.
  - intros R Ht. rewrite Z.rem_mod_nonneg in * by lia.
    pose proof (Z.div_mod t 2 ltac:(lia)).
    pose proof (Z.div_mod (t + 1) 2 ltac:(lia)).
    pose proof (Z.mod_pos_bound (t + 1) 2 ltac:(lia)).
    lia.
Qed.

(** X8.  Two kinds of state are dead ends, left by no sequence of calls
    whatever: a state with the game over, and a state on an odd turn in
    which the enemy has no ability off cooldown; there the player is
    turned away, the enemy does nothing, and as the enemy's countdowns
    move on its own actions only, nothing ever will. *)
Theorem dead_ends (st : BattleState.t) (acts : list Action) :
  BattleState.gameOver st = true
  \/ (Z.odd (BattleState.turn st) = true /\ available st = []) ->
  run (Some st) acts = Some st.
Proof.
  intros H. induction acts as [|act acts IH]; [reflexivity|].
  rewrite run_cons.
  assert (E : step (Some st) act = Some st); [|now rewrite E].
  destruct act as [ability|r]; cbv [step].
  - apply useAbility_rejected, useAbility_rejects_true. tauto.
  - destruct H as [Go|(_ & Av)].
    + simpl. now rewrite (enemyTurn_rejects_true st (or_intror Go)).
    + now apply enemyTurn_none_available.
Qed.

(** The locked enemy of [stalledState]: clicks and timers change
    nothing. *)
Lemma dead_ends_witness :
  run (Some stalledState)
      [PlayerUses flameLash; EnemyMoves (1 # 2); PlayerUses aegisWard;
       EnemyMoves (3 # 4)]
  = Some stalledState.
Proof.
  apply dead_ends. right. split; reflexivity.
Defined.

(** X9.  Nobody moves twice in a row: after a call of [useAbility] that
    was accepted, the next call of [useAbility] is turned away whatever
    the ability, and after an [enemyTurn] that acted, the next
    [enemyTurn] does nothing whatever is drawn. *)
Theorem nobody_moves_twice (st : BattleState.t) :
  (forall a b : Ability.t,
      useAbility_rejects st a = false ->
      useAbility (useAbility (Some st) a) b = useAbility (Some st) a)
  /\ (forall r r' : Q,
         enemyTurn r (Some st) <> Some st ->
         enemyTurn r' (enemyTurn r (Some st)) = enemyTurn r (Some st)).
Proof.
  split.
  - intros a b R. rewrite (useAbility_accepted st a R).
    unfold useAbility_rejects in R.
    rewrite !orb_false_iff, negb_false_iff, Z.eqb_eq in R.
    destruct R as ((Hrem & _) & _).
    unfold endTurn. apply useAbility_rejected.
    unfold useAbility_rejects. simpl.
    now rewrite (proj1 (next_turn_rejects _) Hrem).
  - intros r r' Acted.
    destruct (enemyTurn_cases r st) as [Same|(R & ability & _ & E)];
      [contradiction|].
    rewrite E. apply enemyTurn_rejects_false in R. destruct R as (Hrem & _).
    unfold endTurn. simpl enemyTurn.
    assert (Rj : forall s, BattleState.turn s = BattleState.turn st + 1 ->
                           enemyTurn_rejects s = true).
    { intros s Hs. unfold enemyTurn_rejects.
      now rewrite Hs, (proj1 (proj2 (next_turn_rejects _)) Hrem). }
    now rewrite Rj.
Qed.

(** A double click on Flame Lash counts once. *)
Lemma nobody_moves_twice_witness :
  useAbility (useAbility (Some openingState) flameLash) flameLash
  = useAbility (Some openingState) flameLash.
Proof.
  apply (proj1 (nobody_moves_twice openingState)). reflexivity.
Defined.

(** ** The timer and the screen *)

(** X10.  The timer condition fits the guards.  When the timer is
    armed, the call it makes passes the turn test of [enemyTurn], and
    every click of the player is turned away meanwhile.  After an
    accepted [useAbility], on a turn that is not negative, the timer is
    armed unless the game is over; after an [enemyTurn] that acted it
    is not armed. *)
Theorem timer_fits_the_guards (st : BattleState.t) :
  (armsEnemyTimer (Some st) = true ->
   enemyTurn_rejects st = false
   /\ forall ability : Ability.t, useAbility (Some st) ability = Some st)
  /\ (forall ability : Ability.t,
         0 <= BattleState.turn st ->
         useAbility_rejects st ability = false ->
         exists st' : BattleState.t,
           useAbility (Some st) ability = Some st'
           /\ armsEnemyTimer (Some st') = negb (BattleState.gameOver st'))
  /\ (forall r : Q,
         enemyTurn r (Some st) <> Some st ->
         armsEnemyTimer (enemyTurn r (Some st)) = false).
Proof.
  split; [|split].
  - unfold armsEnemyTimer.
    destruct (BattleState.gameOver st) eqn:Go; [discriminate|].
    intros Hrem. apply Z.eqb_eq in Hrem. split.
    + apply enemyTurn_rejects_false. auto.
    + intros ability. apply useAbility_rejected, useAbility_rejects_true.
      left. now apply rem2_one_odd.
  - intros ability Ht R. rewrite (useAbility_accepted st ability R).
    unfold useAbility_rejects in R.
    rewrite !orb_false_iff, negb_false_iff, Z.eqb_eq in R.
    destruct R as ((Hrem & _) & _).
    eexists. split; [reflexivity|]. unfold armsEnemyTimer. simpl.
    rewrite (proj2 (proj2 (next_turn_rejects _)) Hrem Ht).
    now destruct (_ || _).
  - intros r Acted.
    destruct (enemyTurn_cases r st) as [Same|(R & ability & _ & E)];
      [contradiction|].
    rewrite E. apply enemyTurn_rejects_false in R. destruct R as (Hrem & _).
    unfold endTurn, armsEnemyTimer. simpl.
    rewrite (proj1 (proj2 (next_turn_rejects _)) Hrem).
    now destruct (_ || _).
Qed.

(** After Valdrin's opening move the timer is armed. *)
Lemma timer_fits_the_guards_witness :
  armsEnemyTimer (useAbility (Some openingState) flameLash) = true.
Proof.
  destruct (proj1 (proj2 (timer_fits_the_guards openingState)) flameLash)
    as (st' & Hrun & Harm).
  - simpl. lia.
  - reflexivity.
  - rewrite Hrun, Harm. injection Hrun as <-. reflexivity.
Defined.

(** X11.  The button of an ability is disabled exactly when [useAbility]
    would turn that ability away: a click on a disabled button changes
    nothing, and a click on an enabled one always ends the player's
    turn. *)
Theorem disabled_buttons_are_rejected (st : BattleState.t) (ability : Ability.t) :
  disabled st ability = useAbility_rejects st ability
  /\ (disabled st ability = true -> useAbility (Some st) ability = Some st)
  /\ (disabled st ability = false ->
      exists st' : BattleState.t,
        useAbility (Some st) ability = Some st'
        /\ BattleState.turn st' = BattleState.turn st + 1
        /\ BattleState.lastAttacker st' = Some Player).
Proof.
  assert (E : disabled st ability = useAbility_rejects st ability).
  { unfold disabled, useAbility_rejects.
    now rewrite (orb_comm (_ >? _)). }
  split; [exact E|]. rewrite E. split.
  - apply useAbility_rejected.
  - intros R. rewrite (useAbility_accepted st ability R).
    eexists. split; [reflexivity|]. split; reflexivity.
Qed.

(** In [staleState] the button of Aegis Ward, counting down from 2, is
    disabled and a click on it does nothing. *)
Lemma disabled_buttons_are_rejected_witness :
  useAbility (Some staleState) (Ability.with_currentCooldown aegisWard 2)
  = Some staleState.
Proof.
  apply (proj1 (proj2 (disabled_buttons_are_rejected staleState
                         (Ability.with_currentCooldown aegisWard 2)))).
  reflexivity.
Defined.

(** X12.  In a battle in order the banner names the winner: it is
    hidden while both stand, it says "Vyhrál jsi!" when the enemy is at
    0 and the player is not, and "Prohrál jsi!" when the player is at 0
    and the enemy is not. *)
Theorem banner_names_the_winner (st : BattleState.t) :
  battleInOrder st ->
  match banner st with
  | None =>
      0 < Character.currentHP (BattleState.player st)
      /\ 0 < Character.currentHP (BattleState.enemy st)
  | Some text =>
      (text = "Vyhrál jsi!"
       /\ 0 < Character.currentHP (BattleState.player st)
       /\ Character.currentHP (BattleState.enemy st) = 0)
      \/ (text = "Prohrál jsi!"
          /\ Character.currentHP (BattleState.player st) = 0
          /\ 0 < Character.currentHP (BattleState.enemy st))
  end.
Proof.
  intros Ord. unfold banner.
  destruct (BattleState.gameOver st) eqn:Go.
  - destruct Ord as ((Hp & _) & (He & _) & Alive & Hgo & _).
    rewrite Go in Hgo. symmetry in Hgo. apply orb_true_iff in Hgo.
    rewrite !Z.leb_le in Hgo. rewrite Z.gtb_ltb.
    destruct (Z.ltb_spec 0 (Character.currentHP (BattleState.player st)));
      [left | right]; repeat split; lia.
  - now apply inOrder_alive.
Qed.

Lemma finishedState_inOrder : battleInOrder finishedState.
Proof.
  unfold battleInOrder, wellFormed, abilityInRange. simpl.
  repeat split; try lia; auto; repeat constructor; simpl; lia.
Qed.

(** The enemy at 0, Valdrin at 100: "Vyhrál jsi!". *)
Lemma banner_names_the_winner_witness :
  banner finishedState = Some "Vyhrál jsi!"
  /\ Character.currentHP (BattleState.enemy finishedState) = 0.
Proof.
  pose proof (banner_names_the_winner finishedState finishedState_inOrder) as H.
  destruct (banner finishedState) as [text|] eqn:B.
  - destruct H as [(-> & _ & He)|(_ & Hp & _)].
    + split; [reflexivity | exact He].
    + discriminate Hp.
  - discriminate B.
Defined.

(** ** Counting down *)

Lemma castAll_cons (isPlayer : bool) (source : Character.t)
    (cast : Ability.t * Character.t) (casts : list (Ability.t * Character.t)) :
  castAll isPlayer source (cast :: casts)
  = castAll isPlayer
      (Applied.updatedSource (applyAbility source (snd cast) (fst cast) isPlayer))
      casts.
Proof. reflexivity. Qed.

(** An ability that counts down from [c] while its owner casts other
    things is at [max(c - n, 0)] after [n] of them. *)
Lemma castAll_countdown (isPlayer : bool) (j : nat) (b : Ability.t)
    (casts : list (Ability.t * Character.t)) :
  Forall (fun cast => Ability.name (fst cast) <> Ability.name b) casts ->
  forall (source : Character.t) (c : Z),
    0 <= c ->
    nth_error (Character.abilities source) j
    = Some (Ability.with_currentCooldown b c) ->
    nth_error (Character.abilities (castAll isPlayer source casts)) j
    = Some (Ability.with_currentCooldown b
              (Z.max (c - Z.of_nat (List.length casts)) 0)).
Proof.
  induction 1 as [|cast casts Hname _ IH]; intros source c Hc Hj.
  - simpl. rewrite Hj. do 2 f_equal. lia.
  - rewrite castAll_cons.
    assert (N : Ability.name (Ability.with_currentCooldown b c)
                <> Ability.name (fst cast)) by (simpl; congruence).
    destruct (Z.eq_dec c 0) as [->|Hpos].
    + rewrite (IH _ 0); [do 2 f_equal; simpl List.length; lia | lia |].
      rewrite applyAbility_nth_ability, Hj. simpl.
      now rewrite updateCooldown_idle by (trivial; simpl; lia).
    + rewrite (IH _ (c - 1)); [do 2 f_equal; simpl List.length; lia | lia |].
      rewrite applyAbility_nth_ability, Hj. simpl.
      now rewrite updateCooldown_counting by (trivial; simpl; lia).
Qed.

(** X13.  A cooldown counts the owner's own casts.  After ability [A]
    is used, an ability of that name with cooldown [c >= 0] stands at
    [max(c - n, 0)] once its owner has cast [n] abilities of other
    names, against whatever targets: it is still counting down exactly
    while [n < c]. *)
Theorem cooldown_counts_own_casts
    (source target : Character.t) (A : Ability.t) (isPlayer : bool)
    (casts : list (Ability.t * Character.t)) (j : nat) (b : Ability.t) :
  nth_error (Character.abilities source) j = Some b ->
  Ability.name b = Ability.name A ->
  0 <= Ability.cooldown b ->
  Forall (fun cast => Ability.name (fst cast) <> Ability.name A) casts ->
  exists b' : Ability.t,
    nth_error
      (Character.abilities
         (castAll isPlayer
            (Applied.updatedSource (applyAbility source target A isPlayer))
            casts)) j
    = Some b'
    /\ Ability.currentCooldown b'
       = Z.max (Ability.cooldown b - Z.of_nat (List.length casts)) 0
    /\ (Ability.currentCooldown b' > 0
        <-> Z.of_nat (List.length casts) < Ability.cooldown b).
Proof.
  intros Hj Hname Hc Hcasts.
  eexists. split.
  - apply castAll_countdown with (b := b) (c := Ability.cooldown b); trivial.
    + revert Hcasts. apply Forall_impl. intros cast. congruence.
    + rewrite applyAbility_nth_ability, Hj. simpl.
      now rewrite updateCooldown_same_name.
  - simpl. split; lia.
Qed.

(** Scenario D of the specification: Vital Surge, cooldown 3, cast and
    followed by two Flame Lashes, still counts down from 1. *)
Lemma cooldown_counts_own_casts_witness :
  exists b' : Ability.t,
    nth_error
      (Character.abilities
         (castAll true
            (Applied.updatedSource (applyAbility valdrin valdrin vitalSurge true))
            [(flameLash, valdrin); (flameLash, woundedValdrin)])) 2
    = Some b'
    /\ Ability.currentCooldown b' = 1.
Proof.
  destruct (cooldown_counts_own_casts valdrin valdrin vitalSurge true
              [(flameLash, valdrin); (flameLash, woundedValdrin)] 2 vitalSurge)
    as (b' & Hn & Hc & _).
  - reflexivity.
  - reflexivity.
  - simpl. lia.
  - repeat constructor; simpl; discriminate.
  - exists b'. split; [exact Hn | exact Hc].
Defined.

(** ** Abilities without cooldown *)

Lemma ready_is_available (st : BattleState.t) :
  Exists alwaysReady (Character.abilities (BattleState.enemy st)) ->
  available st <> [].
Proof.
  intros E Av. apply Exists_exists in E. destruct E as (a & Hin & _ & Hz).
  assert (In a (available st)) as Hav.
  { apply filter_In. split; [exact Hin|]. unfold offCooldown. now rewrite Hz. }
  rewrite Av in Hav. contradiction.
Qed.

Lemma step_keeps_ready (st st' : BattleState.t) (act : Action) :
  step (Some st) act = Some st' ->
  (Exists alwaysReady (Character.abilities (BattleState.player st)) ->
   Exists alwaysReady (Character.abilities (BattleState.player st')))
  /\ (Exists alwaysReady (Character.abilities (BattleState.enemy st)) ->
      Exists alwaysReady (Character.abilities (BattleState.enemy st'))).
Proof.
  intros Hstep.
  assert (Cast : forall s t a p,
             Exists alwaysReady (Character.abilities s) ->
             Exists alwaysReady
               (Character.abilities (Applied.updatedSource (applyAbility s t a p)))).
  { intros s t a p E. rewrite applyAbility_abilities. apply Exists_map.
    revert E. apply Exists_impl. apply updateCooldown_alwaysReady. }
  destruct (step_cases st act) as [Same|(nx & E & _ & _ & _ & Hact)].
  - rewrite Same in Hstep. injection Hstep as <-. auto.
  - rewrite E in Hstep. injection Hstep as <-. simpl.
    destruct act as [ability|r].
    + destruct Hact as (_ & ->). simpl.
      rewrite applyAbility_target_abilities. auto.
    + destruct Hact as (_ & ability & _ & ->). simpl.
      rewrite applyAbility_target_abilities. auto.
Qed.

Lemma run_keeps_ready (acts : list Action) :
  forall st : BattleState.t,
  exists st' : BattleState.t,
    run (Some st) acts = Some st'
    /\ (Exists alwaysReady (Character.abilities (BattleState.player st)) ->
        Exists alwaysReady (Character.abilities (BattleState.player st')))
    /\ (Exists alwaysReady (Character.abilities (BattleState.enemy st)) ->
        Exists alwaysReady (Character.abilities (BattleState.enemy st'))).
Proof.
  induction acts as [|act acts IH]; intros st.
  - exists st. auto.
  - rewrite run_cons.
    destruct (step_initialised st act) as (st1 & Hstep). rewrite Hstep.
    destruct (step_keeps_ready st st1 act Hstep) as (Kp & Ke).
    destruct (IH st1) as (st' & Hrun & Kp' & Ke').
    exists st'. auto.
Qed.

(** X14.  A combatant who has an ability without cooldown, off
    cooldown (a Flame Lash), keeps it so through any sequence of calls.
    So such an enemy never stalls, a draw in [0, 1) on its turn always
    makes it act and the turn pass; and such a player has a button that
    is enabled on every turn of his with the game not over. *)
Theorem no_cooldown_no_stall (st : BattleState.t) (acts : list Action) :
  exists st' : BattleState.t,
    run (Some st) acts = Some st'
    /\ (Exists alwaysReady (Character.abilities (BattleState.enemy st)) ->
        forall r : Q,
          (0 <= r)%Q -> (r < 1)%Q ->
          enemyTurn_rejects st' = false ->
          exists st'' : BattleState.t,
            enemyTurn r (Some st') = Some st''
            /\ BattleState.turn st'' = BattleState.turn st' + 1)
    /\ (Exists alwaysReady (Character.abilities (BattleState.player st)) ->
        Z.rem (BattleState.turn st') 2 = 0 ->
        BattleState.gameOver st' = false ->
        exists ability : Ability.t,
          In ability (Character.abilities (BattleState.player st'))
          /\ disabled st' ability = false).
Proof.
  destruct (run_keeps_ready acts st) as (st' & Hrun & Kp & Ke).
  exists st'. split; [exact Hrun|]. split.
  - intros E r H0 H1 R.
    destruct (enemyTurn_acts r st' H0 H1 R (ready_is_available st' (Ke E)))
      as (ability & _ & ->).
    eexists. split; reflexivity.
  - intros E Hrem Hgo. specialize (Kp E).
    apply Exists_exists in Kp. destruct Kp as (a & Hin & _ & Hz).
    exists a. split; [exact Hin|].
    unfold disabled. rewrite Hz, Hrem, Hgo. reflexivity.
Qed.

Lemma valdrin_has_flameLash :
  Exists alwaysReady (Character.abilities valdrin).
Proof. apply Exists_cons_hd. split; reflexivity. Qed.

(** Valdrin's double has a Flame Lash: after an exchange of blows it
    still answers. *)
Lemma no_cooldown_no_stall_witness :
  exists st' st'' : BattleState.t,
    run (Some openingState)
        [PlayerUses emberVortex; EnemyMoves (1 # 2); PlayerUses flameLash]
    = Some st'
    /\ enemyTurn (4 # 5) (Some st') = Some st''
    /\ BattleState.turn st'' = 4.
Proof.
  destruct (no_cooldown_no_stall openingState
              [PlayerUses emberVortex; EnemyMoves (1 # 2); PlayerUses flameLash])
    as (st' & Hrun & Henemy & _).
  assert (H0 : (0 <= 4 # 5)%Q) by (unfold Qle; simpl; lia).
  assert (H1 : (4 # 5 < 1)%Q) by (unfold Qlt; simpl; lia).
  assert (T : BattleState.turn st' = 3 /\ enemyTurn_rejects st' = false).
  { vm_compute in Hrun. injection Hrun as <-. split; reflexivity. }
  destruct T as (Ht & R).
  destruct (Henemy valdrin_has_flameLash (4 # 5)%Q H0 H1 R)
    as (st'' & Hact & Hturn).
  exists st', st''. rewrite Hturn, Ht. repeat split; trivial.
Defined.

(** ** The enemy's choice *)

(** X15.  The enemy, unlike the player, can only cast what it has: an
    [enemyTurn] that changes the state has applied an ability of the
    enemy's own list whose countdown was at 0, with the enemy as source
    and the player as target, and has recorded the enemy as the last
    attacker. *)
Theorem enemy_casts_its_own (r : Q) (st : BattleState.t) :
  enemyTurn r (Some st) <> Some st ->
  exists (ability : Ability.t) (st' : BattleState.t),
    In ability (Character.abilities (BattleState.enemy st))
    /\ Ability.currentCooldown ability = 0
    /\ enemyTurn r (Some st) = Some st'
    /\ BattleState.enemy st'
       = Applied.updatedSource
           (applyAbility (BattleState.enemy st) (BattleState.player st)
                         ability false)
    /\ BattleState.player st'
       = Applied.updatedTarget
           (applyAbility (BattleState.enemy st) (BattleState.player st)
                         ability false)
    /\ BattleState.lastAttacker st' = Some Enemy
    /\ BattleState.lastEffect st'
       = Applied.effect
           (applyAbility (BattleState.enemy st) (BattleState.player st)
                         ability false).
Proof.
  intros Acted.
  destruct (enemyTurn_cases r st) as [Same|(_ & ability & Hin & ->)];
    [contradiction|].
  apply filter_In in Hin. destruct Hin as (Hin & Hoff).
  exists ability. eexists. split; [exact Hin|].
  split; [now apply Z.eqb_eq|].
  split; [reflexivity|]. repeat split.
Qed.

(** The double answers Valdrin's opening with something of its list. *)
Lemma enemy_casts_its_own_witness :
  exists (ability : Ability.t) (st' : BattleState.t),
    In ability (Character.abilities valdrin)
    /\ enemyTurn (1 # 2) (Some enemyToMove) = Some st'
    /\ BattleState.lastAttacker st' = Some Enemy.
Proof.
  destruct (enemy_casts_its_own (1 # 2) enemyToMove)
    as (ability & st' & Hin & _ & Hrun & _ & _ & Hlast & _).
  - intros H. vm_compute in H. discriminate H.
  - exists ability, st'. repeat split; assumption.
Defined.




(** ** The start of a battle *)

(** X17.  The combatants the screen prepares start a battle as they
    are: the engine's reset changes nothing more, both are at full hit
    points without shield, every button of the player is enabled and
    every ability of the enemy is available.  If the two [maxHP] are
    positive and no power or cooldown is negative, the battle starts in
    order. *)
Theorem prepared_battle_is_ready (player enemyTemplate : Character.t) :
  exists st0 : BattleState.t,
    initBattle (memoPlayer player) (memoEnemy enemyTemplate) = Some st0
    /\ BattleState.player st0 = memoPlayer player
    /\ BattleState.enemy st0 = memoEnemy enemyTemplate
    /\ Character.currentHP (BattleState.player st0) = Character.maxHP player
    /\ Character.currentHP (BattleState.enemy st0)
       = Character.maxHP enemyTemplate
    /\ (forall ability : Ability.t,
           In ability (Character.abilities (BattleState.player st0)) ->
           disabled st0 ability = false)
    /\ available st0 = Character.abilities (BattleState.enemy st0)
    /\ (0 < Character.maxHP player ->
        0 < Character.maxHP enemyTemplate ->
        Forall (fun a => 0 <= Ability.power a /\ 0 <= Ability.cooldown a)
               (Character.abilities player
                ++ Character.abilities enemyTemplate) ->
        battleInOrder st0).
Proof.
  assert (Zero : forall l a,
             In a (map (fun a => Ability.with_currentCooldown a 0) l) ->
             Ability.currentCooldown a = 0).
  { intros l a Hin. apply in_map_iff in Hin.
    now destruct Hin as (a0 & <- & _). }
  assert (Range : forall l,
             Forall (fun a => 0 <= Ability.power a /\ 0 <= Ability.cooldown a) l ->
             Forall abilityInRange
                    (map (fun a => Ability.with_currentCooldown a 0) l)).
  { intros l H. apply Forall_map. revert H. apply Forall_impl.
    unfold abilityInRange. simpl. intros a. lia. }
  eexists. split; [reflexivity|]. simpl.
  do 4 (split; [reflexivity|]).
  split; [|split].
  - intros ability Hin. unfold disabled. simpl.
    now rewrite (Zero _ _ Hin).
  - unfold available. simpl.
    apply forallb_filter_id. apply forallb_forall. intros a Hin.
    unfold offCooldown. now rewrite (Zero _ _ Hin).
  - intros Hp He Hab. apply Forall_app in Hab. destruct Hab as (Habp & Habe).
    unfold battleInOrder, wellFormed. simpl.
    repeat split; auto; lia.
Qed.

(** Valdrin, worn out and shielded, is put back on his feet for a new
    battle. *)
Lemma prepared_battle_is_ready_witness :
  exists st0 : BattleState.t,
    initBattle (memoPlayer woundedValdrin) (memoEnemy lockedEnemy) = Some st0
    /\ battleInOrder st0.
Proof.
  destruct (prepared_battle_is_ready woundedValdrin lockedEnemy)
    as (st0 & Hinit & _ & _ & _ & _ & _ & _ & Hord).
  exists st0. split; [exact Hinit|].
  apply Hord; simpl; try lia.
  repeat constructor; simpl; lia.
Defined.
